(** * drive.py: the VESC motor controller and the line-following loop

    A shallow embedding of [src/drive.py].  Python floats are IEEE binary64
    numbers, so they are the kernel's primitive floats; the objects of the
    libraries the script drives (pyvesc, depthai, cv2, toolbox) are outside
    the file and appear as the calls made on them. *)

From Stdlib Require Import ZArith List String Ascii Bool Lia Floats.
Import ListNotations.

Local Open Scope string_scope.
Local Open Scope list_scope.

(** Decimal literals are rounded to the nearest binary64 number, as Python
    rounds them. *)
Set Warnings "-inexact-float".

(** ** Python values and exceptions *)

(** A raised exception: its class and the text [str(err)] prints. *)
Record exn : Type := mkExn { exn_class : string; exn_msg : string }.

(** The outcome of a call: the value it returns or the exception it raises. *)
Inductive result (A : Type) : Type :=
| Return (a : A)
| Raise (e : exn).
Arguments Return {A} a.
Arguments Raise {A} e.

(** What [print] is given. *)
Inductive pyval : Type :=
| PStr (s : string)
| PFloat (x : float)
| PExn (e : exn).

Definition LF : string := String (ascii_of_nat 10) EmptyString.

Fixpoint repeat_str (n : nat) (s : string) : string :=
  match n with
  | O => EmptyString
  | S k => (s ++ repeat_str k s)%string
  end.

(** ** The transport: [pyvesc.VESC] *)

(** The two commands the script sends over the serial link. *)
Inductive command : Type :=
| set_servo (new_servo_pos : float)
| set_duty_cycle (new_duty_cycle : float).

(** The transport object: the arguments it was opened with and the commands
    written to it so far, oldest first. *)
Record pyvesc_VESC : Type := mkTransport {
  serial_port : string;
  has_sensor : bool;
  start_heartbeat : bool;
  baudrate : Z;
  timeout : float;
  written : list command
}.

Definition write (t : pyvesc_VESC) (c : command) : pyvesc_VESC :=
  mkTransport (serial_port t) (has_sensor t) (start_heartbeat t)
              (baudrate t) (timeout t) (written t ++ [c]).

(** ** What [__init__] does to the outside world *)

Inductive io : Type :=
| CallImport (module : string)
| CallPrint (args : list pyval)
| CallSleep (seconds : Z)
| CallOpen (port : string) (sensor heartbeat : bool) (baud : Z) (tmo : float).

(** The machine the script runs on: whether [import pyvesc] raises, and
    whether opening a given serial port raises. *)
Record env : Type := mkEnv {
  import_pyvesc : option exn;
  open_port : string -> option exn
}.

(** ** Computations

    A Python statement runs in a state [S], may raise, and leaves a state
    behind either way. *)
Definition M (S A : Type) : Type := S -> result A * S.

Definition ret {S A} (a : A) : M S A := fun s => (Return a, s).
Definition raise {S A} (e : exn) : M S A := fun s => (Raise e, s).

Definition bind {S A B} (m : M S A) (k : A -> M S B) : M S B :=
  fun s =>
    match m s with
    | (Return a, s') => k a s'
    | (Raise e, s') => (Raise e, s')
    end.

(** The exception classes of the standard library that do not derive from
    [Exception]: [BaseException] itself and what it has beside [Exception]. *)
Definition outside_Exception : list string :=
  ["BaseException"; "BaseExceptionGroup"; "GeneratorExit";
   "KeyboardInterrupt"; "SystemExit"; "CancelledError"].

(** [isinstance(e, Exception)] *)
Definition is_Exception (e : exn) : bool :=
  negb (existsb (String.eqb (exn_class e)) outside_Exception).

(** [try: m except Exception as err: h err]: an exception that is not an
    [Exception] passes the handler by. *)
Definition try_except {S A} (m : M S A) (h : exn -> M S A) : M S A :=
  fun s =>
    match m s with
    | (Return a, s') => (Return a, s')
    | (Raise e, s') => if is_Exception e then h e s' else (Raise e, s')
    end.

Declare Scope py_scope.
Delimit Scope py_scope with py.
Notation "x <- m ;; k" := (bind m (fun x => k))
  (at level 61, m at next level, right associativity) : py_scope.
Notation "m ;; k" := (bind m (fun _ => k))
  (at level 61, right associativity) : py_scope.
Local Open Scope py_scope.

(** ** class VESC *)

(** During [__init__] the state is the list of calls made so far. *)
Definition emit (c : io) : M (list io) unit := fun t => (Return tt, t ++ [c]).

Record VESC : Type := mkVESC {
  steering_scale : float;
  steering_offset : float;
  percent : float;
  v : pyvesc_VESC
}.

Definition assert_msg : string :=
  (LF ++ LF ++
   "Only percentages are allowed for MAX_VESC_SPEED (we recommend a value of about .2) (negative values flip direction of motor)")%string.

Definition AssertionError : exn := mkExn "AssertionError" assert_msg.

(** [import pyvesc] (lines 44-53). *)
Definition do_import (E : env) : M (list io) unit :=
  try_except
    (emit (CallImport "pyvesc") ;;
     match import_pyvesc E with
     | None => ret tt
     | Some err => raise err
     end)
    (fun err =>
       emit (CallPrint [PStr (repeat_str 4 LF); PExn err; PStr LF]) ;;
       emit (CallPrint [PStr "please use the following command to import pyvesc so that you can also set"]) ;;
       emit (CallPrint [PStr "the servo position:"]) ;;
       emit (CallPrint [PStr "pip install git+https://github.com/LiamBindle/PyVESC.git@master"]) ;;
       emit (CallPrint [PStr (repeat_str 3 LF)]) ;;
       emit (CallSleep 1) ;;
       raise err).

(** [pyvesc.VESC(serial_port, has_sensor, start_heartbeat, baudrate, timeout)]
    with its handler (lines 60-67). *)
Definition do_open (E : env) (port : string) (sensor heartbeat : bool)
    (baud : Z) (tmo : float) : M (list io) pyvesc_VESC :=
  try_except
    (emit (CallOpen port sensor heartbeat baud tmo) ;;
     match open_port E port with
     | None => ret (mkTransport port sensor heartbeat baud tmo [])
     | Some err => raise err
     end)
    (fun err =>
       emit (CallPrint [PStr (repeat_str 4 LF); PExn err]) ;;
       emit (CallPrint [PStr (LF ++ LF ++ "to fix permission denied errors, try running the following command:")%string]) ;;
       emit (CallPrint [PStr ("sudo chmod a+rw " ++ port)%string; PStr (repeat_str 4 LF)]) ;;
       emit (CallSleep 1) ;;
       raise err).

(** [percent <= 1 and percent >= -1] *)
Definition percent_ok (p : float) : bool :=
  ((p <=? 1) && (-1 <=? p))%float.

(** [VESC.__init__] *)
Definition VESC_init (E : env) (port : string) (percent0 : float)
    (sensor heartbeat : bool) (baud : Z) (tmo : float)
    (scale offset : float) : M (list io) VESC :=
  do_import E ;;
  (if percent_ok percent0 then ret tt else raise AssertionError) ;;
  t <- do_open E port sensor heartbeat baud tmo ;;
  ret (mkVESC scale offset percent0 t).

(** [VESC.run]: the object as the call leaves it. *)
Definition run (self : VESC) (angle throttle : float) : VESC :=
  let v1 := write (v self) (set_servo (angle * steering_scale self + steering_offset self)%float) in
  let v2 := write v1 (set_duty_cycle (throttle * percent self)%float) in
  mkVESC (steering_scale self) (steering_offset self) (percent self) v2.

(** The commands a call of [run] adds to the transport. *)
Definition sent (before after : VESC) : list command :=
  skipn (List.length (written (v before))) (written (v after)).

(** The script's controller: [VESC('/dev/ttyACM0', steering_offset=0.5)]
    (line 75), the other arguments at their defaults. *)
Definition main_vesc (E : env) : M (list io) VESC :=
  VESC_init E "/dev/ttyACM0" 0.2%float false true 115200 0.05%float 1.0%float 0.5%float.

Definition THROTTLE : float := 0.15%float.

(** ** The script's loop (lines 92-110) *)

Section Main.

(** Values of the libraries: camera frames, the overlay and the steering
    line of [toolbox], the images [cv2] builds. *)
Variables Frame Overlay Line Image : Type.

(** [frame.shape], rows, columns and channels. *)
Variable shape : Frame -> Z * Z * Z.

(** [toolbox]: each call returns or raises. *)
Variable run_yellow_segmentation_pipeline : Frame -> result (Overlay * option Line).
Variable run_lane_detection_pipeline : Frame -> result (Overlay * option Line).
Variable steering_command : option Line -> Z -> result float.

(** [cv2.addWeighted] and [cv2.resize] (with [INTER_LINEAR]). *)
Variable addWeighted : Frame -> float -> Overlay -> float -> float -> Image.
Variable resize : Image -> Z * Z -> Image.

(** The calls the loop makes, with their arguments; [QueueGet] and
    [WaitKey] also carry what the call returned.  The calls on the queue, on
    [cv2] and on the controller are taken to return; those into [toolbox]
    return or raise. *)
Inductive call : Type :=
| QueueGet (frame : Frame)
| YellowSegmentation (frame : Frame)
| LaneDetection (frame : Frame)
| SteeringCommand (steering_line : option Line) (width : Z)
| PrintCmd (steering_cmd : float)
| VescRun (angle throttle : float)
| AddWeighted (frame : Frame) (alpha : float) (overlay : Overlay) (beta gamma : float)
| Resize (output : Image) (dsize : Z * Z)
| Imshow (winname : string) (mat : Image)
| WaitKey (delay : Z) (key : Z)
| DestroyAllWindows.

(** The state of the script: the global [vesc] and the calls made so far. *)
Record world : Type := mkWorld { vesc : VESC; calls : list call }.

Definition log (c : call) : M world unit :=
  fun w => (Return tt, mkWorld (vesc w) (calls w ++ [c])).

(** A call into [toolbox]. *)
Definition extern {A} (c : call) (r : result A) : M world A :=
  fun w => (r, mkWorld (vesc w) (calls w ++ [c])).

(** [vesc.run(angle, throttle)] *)
Definition vesc_run (angle throttle : float) : M world unit :=
  fun w => (Return tt,
            mkWorld (run (vesc w) angle throttle)
                    (calls w ++ [VescRun angle throttle])).

Definition ord_q : Z := 113.

(** One pass through the body of [while True] (lines 94-109): [frame] is
    what [qRgb.get()] delivers and [key] what [cv2.waitKey(1)] returns;
    the result is whether the loop breaks. *)
Definition cycle (frame : Frame) (key : Z) : M world bool :=
  log (QueueGet frame) ;;
  p <- extern (YellowSegmentation frame) (run_yellow_segmentation_pipeline frame) ;;
  p <- match snd p with
       | None => extern (LaneDetection frame) (run_lane_detection_pipeline frame)
       | Some _ => ret p
       end ;;
  let '(overlay, steering_line) := p in
  let width := snd (fst (shape frame)) in
  steering_cmd <- extern (SteeringCommand steering_line width)
                         (steering_command steering_line width) ;;
  log (PrintCmd steering_cmd) ;;
  vesc_run steering_cmd THROTTLE ;;
  let output := addWeighted frame 0.8%float overlay 1%float 1%float in
  log (AddWeighted frame 0.8%float overlay 1%float 1%float) ;;
  let output_small := resize output (480, 270)%Z in
  log (Resize output (480, 270)%Z) ;;
  log (Imshow "frame" output_small) ;;
  log (WaitKey 1 key) ;;
  ret (key =? ord_q)%Z.

(** How far the script has got. *)
Inductive status : Type :=
| Streaming
| Terminated
| Aborted (e : exn).

(** The loop over the frames and keys the outside delivers.  When they
    run out the loop is still streaming, blocked in [qRgb.get()]; after
    [break] the script calls [cv2.destroyAllWindows()] and ends; an
    exception leaves the loop and ends the script. *)
Fixpoint streaming (inputs : list (Frame * Z)) (w : world) : status * world :=
  match inputs with
  | [] => (Streaming, w)
  | (frame, key) :: rest =>
      match cycle frame key w with
      | (Return true, w') =>
          (Terminated, mkWorld (vesc w') (calls w' ++ [DestroyAllWindows]))
      | (Return false, w') => streaming rest w'
      | (Raise e, w') => (Aborted e, w')
      end
  end.

(** The calls made between two states. *)
Definition issued (before after : world) : list call :=
  skipn (List.length (calls before)) (calls after).

Definition is_run (c : call) : bool :=
  match c with VescRun _ _ => true | _ => false end.
Definition is_get (c : call) : bool :=
  match c with QueueGet _ => true | _ => false end.
Definition is_lane (c : call) : bool :=
  match c with LaneDetection _ => true | _ => false end.
Definition is_display (c : call) : bool :=
  match c with
  | AddWeighted _ _ _ _ _ | Resize _ _ | Imshow _ _ => true
  | _ => false
  end.

(** The calls of the part of a cycle that follows the vision step. *)
Definition actuate_and_show (frame : Frame) (key : Z) (overlay : Overlay)
    (steering_line : option Line) (steering_cmd : float) : list call :=
  let width := snd (fst (shape frame)) in
  let output := addWeighted frame 0.8%float overlay 1%float 1%float in
  [SteeringCommand steering_line width;
   PrintCmd steering_cmd;
   VescRun steering_cmd THROTTLE;
   AddWeighted frame 0.8%float overlay 1%float 1%float;
   Resize output (480, 270)%Z;
   Imshow "frame" (resize output (480, 270)%Z);
   WaitKey 1 key].

(** What a cycle does, by what the calls into [toolbox] return. *)
Inductive cycle_run (frame : Frame) (key : Z) (w : world) :
    result bool -> world -> Prop :=
| primary_raises e :
    run_yellow_segmentation_pipeline frame = Raise e ->
    cycle_run frame key w (Raise e)
      (mkWorld (vesc w) (calls w ++ [QueueGet frame; YellowSegmentation frame]))
| fallback_raises overlay e :
    run_yellow_segmentation_pipeline frame = Return (overlay, None) ->
    run_lane_detection_pipeline frame = Raise e ->
    cycle_run frame key w (Raise e)
      (mkWorld (vesc w)
         (calls w ++ [QueueGet frame; YellowSegmentation frame; LaneDetection frame]))
| command_raises (fallback : bool) overlay steering_line e :
    (if fallback
     then (exists o, run_yellow_segmentation_pipeline frame = Return (o, None)) /\
          run_lane_detection_pipeline frame = Return (overlay, steering_line)
     else run_yellow_segmentation_pipeline frame = Return (overlay, steering_line) /\
          steering_line <> None) ->
    steering_command steering_line (snd (fst (shape frame))) = Raise e ->
    cycle_run frame key w (Raise e)
      (mkWorld (vesc w)
         (calls w ++ [QueueGet frame; YellowSegmentation frame] ++
          (if fallback then [LaneDetection frame] else []) ++
          [SteeringCommand steering_line (snd (fst (shape frame)))]))
| cycle_returns (fallback : bool) overlay steering_line steering_cmd :
    (if fallback
     then (exists o, run_yellow_segmentation_pipeline frame = Return (o, None)) /\
          run_lane_detection_pipeline frame = Return (overlay, steering_line)
     else run_yellow_segmentation_pipeline frame = Return (overlay, steering_line) /\
          steering_line <> None) ->
    steering_command steering_line (snd (fst (shape frame))) = Return steering_cmd ->
    cycle_run frame key w (Return (key =? ord_q)%Z)
      (mkWorld (run (vesc w) steering_cmd THROTTLE)
         (calls w ++ [QueueGet frame; YellowSegmentation frame] ++
          (if fallback then [LaneDetection frame] else []) ++
          actuate_and_show frame key overlay steering_line steering_cmd)).

End Main.

(** ** Readings of a trace of [__init__] *)

Definition is_open (c : io) : bool :=
  match c with CallOpen _ _ _ _ _ => true | _ => false end.

Definition count_open (t : list io) : nat := List.length (filter is_open t).

(** The servo positions and the duty cycles among commands. *)
Fixpoint servo_commands (l : list command) : list float :=
  match l with
  | [] => []
  | set_servo x :: l' => x :: servo_commands l'
  | set_duty_cycle _ :: l' => servo_commands l'
  end.

Fixpoint power_commands (l : list command) : list float :=
  match l with
  | [] => []
  | set_servo _ :: l' => power_commands l'
  | set_duty_cycle x :: l' => x :: power_commands l'
  end.

(** ** Machines and objects to run the definitions on *)

(** pyvesc installed, every port opens. *)
Definition env_ok : env := mkEnv None (fun _ => None).

(** pyvesc missing. *)
Definition env_no_pyvesc : env :=
  mkEnv (Some (mkExn "ModuleNotFoundError" "No module named 'pyvesc'"))
        (fun _ => None).

(** pyvesc installed, the port is there but may not be opened. *)
Definition permission_denied : exn :=
  mkExn "SerialException"
        "[Errno 13] could not open port /dev/ttyACM0: [Errno 13] Permission denied: '/dev/ttyACM0'".
Definition env_denied : env := mkEnv None (fun _ => Some permission_denied).

(** pyvesc installed, no such device. *)
Definition unreachable : exn :=
  mkExn "SerialException"
        "[Errno 2] could not open port /dev/ttyACM0: [Errno 2] No such file or directory: '/dev/ttyACM0'".
Definition env_unreachable : env := mkEnv None (fun _ => Some unreachable).

(** pyvesc installed, the operator interrupts while the port is opened. *)
Definition interrupted : exn := mkExn "KeyboardInterrupt" EmptyString.
Definition env_interrupted : env := mkEnv None (fun _ => Some interrupted).

(** The interrupt comes during [import pyvesc]. *)
Definition env_import_interrupted : env :=
  mkEnv (Some interrupted) (fun _ => None).

(** The transport and the controller of line 75, freshly opened. *)
Definition port0 : pyvesc_VESC :=
  mkTransport "/dev/ttyACM0" false true 115200 0.05%float [].
Definition vesc0 : VESC := mkVESC 1.0%float 0.5%float 0.2%float port0.

(** ** Readings of a trace of the loop *)

Arguments QueueGet {Frame Overlay Line Image} frame.
Arguments YellowSegmentation {Frame Overlay Line Image} frame.
Arguments LaneDetection {Frame Overlay Line Image} frame.
Arguments SteeringCommand {Frame Overlay Line Image} steering_line width.
Arguments PrintCmd {Frame Overlay Line Image} steering_cmd.
Arguments VescRun {Frame Overlay Line Image} angle throttle.
Arguments AddWeighted {Frame Overlay Line Image} frame alpha overlay beta gamma.
Arguments Resize {Frame Overlay Line Image} output dsize.
Arguments Imshow {Frame Overlay Line Image} winname mat.
Arguments WaitKey {Frame Overlay Line Image} delay key.
Arguments DestroyAllWindows {Frame Overlay Line Image}.
Arguments mkWorld {Frame Overlay Line Image} vesc calls.
Arguments vesc {Frame Overlay Line Image} w.
Arguments calls {Frame Overlay Line Image} w.
Arguments issued {Frame Overlay Line Image} before after.
Arguments is_run {Frame Overlay Line Image} c.
Arguments is_get {Frame Overlay Line Image} c.
Arguments is_lane {Frame Overlay Line Image} c.
Arguments is_display {Frame Overlay Line Image} c.
Arguments cycle {Frame Overlay Line Image} shape run_yellow_segmentation_pipeline
  run_lane_detection_pipeline steering_command addWeighted resize frame key _.
Arguments actuate_and_show {Frame Overlay Line Image} shape addWeighted resize
  frame key overlay steering_line steering_cmd.
Arguments cycle_run {Frame Overlay Line Image} shape run_yellow_segmentation_pipeline
  run_lane_detection_pipeline steering_command addWeighted resize frame key w _ _.
Arguments streaming {Frame Overlay Line Image} shape run_yellow_segmentation_pipeline
  run_lane_detection_pipeline steering_command addWeighted resize inputs w.

(** [cv2.waitKey] returned the code of [q]. *)
Definition is_stop {Frame Overlay Line Image} (c : call Frame Overlay Line Image) : bool :=
  match c with WaitKey _ key => (key =? ord_q)%Z | _ => false end.

(** Frames and calls of [run] pair up: every frame got is followed by one
    call of [run] before the next frame is got, and no call of [run] comes
    without its frame.  [pending] says a frame is waiting for its call. *)
Fixpoint paired {Frame Overlay Line Image} (pending : bool)
    (l : list (call Frame Overlay Line Image)) : bool :=
  match l with
  | [] => negb pending
  | QueueGet _ :: l' => negb pending && paired true l'
  | VescRun _ _ :: l' => pending && paired false l'
  | _ :: l' => paired pending l'
  end.

(** Every way of writing [l] as [l1 ++ c :: l2]. *)
Fixpoint splits {A} (l : list A) : list (list A * A * list A) :=
  match l with
  | [] => []
  | a :: l' => ([], a, l') :: map (fun '(l1, c, l2) => (a :: l1, c, l2)) (splits l')
  end.

(** ** A loop to run: frames are numbered, the yellow line is seen on even
    frames only, the lane detector always finds a line *)

Definition demo_shape (frame : nat) : Z * Z * Z := (540, 960, 3)%Z.
Definition demo_yellow (frame : nat) : result (unit * option Z) :=
  Return (tt, if Nat.even frame then Some 100%Z else None).
Definition demo_lane (frame : nat) : result (unit * option Z) :=
  Return (tt, Some 700%Z).
Definition demo_steering (steering_line : option Z) (width : Z) : result float :=
  match steering_line with
  | Some x => Return (if (2 * x <? width)%Z then (-0.3)%float else 0.25%float)
  | None => Raise (mkExn "TypeError" "'NoneType' object is not subscriptable")
  end.
Definition demo_addWeighted (frame : nat) (alpha : float) (overlay : unit)
    (beta gamma : float) : nat := frame.
Definition demo_resize (output : nat) (dsize : Z * Z) : nat := output.

Definition demo_world : world nat unit Z nat := mkWorld vesc0 [].

Definition demo_cycle (frame : nat) (key : Z) :=
  cycle demo_shape demo_yellow demo_lane demo_steering demo_addWeighted
        demo_resize frame key.

Definition demo_streaming (inputs : list (nat * Z)) :=
  streaming demo_shape demo_yellow demo_lane demo_steering demo_addWeighted
            demo_resize inputs.

(** The operator lets two frames pass and presses [q] during the third; a
    fourth frame is waiting in the queue. *)
Definition demo_inputs : list (nat * Z) :=
  [(0%nat, -1); (1%nat, -1); (2%nat, 113); (3%nat, -1)]%Z.

(** What a cycle on frame 1 calls before it shows the debug view: the
    yellow line is not seen, the lane detector is asked. *)
Definition demo_before_imshow : list (call nat unit Z nat) :=
  [QueueGet 1%nat; YellowSegmentation 1%nat; LaneDetection 1%nat;
   SteeringCommand (Some 700%Z) 960; PrintCmd 0.25%float;
   VescRun 0.25%float THROTTLE;
   AddWeighted 1%nat 0.8%float tt 1%float 1%float;
   Resize 1%nat (480, 270)%Z].

(** What the loop calls on frame 0 before the operator's [q] is seen. *)
Definition demo_before_stop : list (call nat unit Z nat) :=
  [QueueGet 0%nat; YellowSegmentation 0%nat;
   SteeringCommand (Some 100%Z) 960; PrintCmd (-0.3)%float;
   VescRun (-0.3)%float THROTTLE;
   AddWeighted 0%nat 0.8%float tt 1%float 1%float;
   Resize 0%nat (480, 270)%Z; Imshow "frame" 0%nat].

(** ** The loop and the transport *)

(** [cv2.destroyAllWindows()] *)
Definition is_destroy {Frame Overlay Line Image} (c : call Frame Overlay Line Image) : bool :=
  match c with DestroyAllWindows => true | _ => false end.

(** What a call of the loop writes to the transport of [self]. *)
Definition commands_of {Frame Overlay Line Image} (self : VESC)
    (c : call Frame Overlay Line Image) : list command :=
  match c with
  | VescRun angle throttle =>
      [set_servo (angle * steering_scale self + steering_offset self)%float;
       set_duty_cycle (throttle * percent self)%float]
  | _ => []
  end.

(** The throttle of a call of [run] is the constant of line 8. *)
Definition throttle_fixed {Frame Overlay Line Image}
    (c : call Frame Overlay Line Image) : Prop :=
  match c with VescRun _ throttle => throttle = THROTTLE | _ => True end.

(** Two controllers with the same attributes and the same transport
    parameters. *)
Definition same_config (a b : VESC) : Prop :=
  steering_scale a = steering_scale b /\
  steering_offset a = steering_offset b /\
  percent a = percent b /\
  serial_port (v a) = serial_port (v b) /\
  has_sensor (v a) = has_sensor (v b) /\
  start_heartbeat (v a) = start_heartbeat (v b) /\
  baudrate (v a) = baudrate (v b) /\
  timeout (v a) = timeout (v b).

(** Lines 97-99 as a function of the frame: the overlay and the line of the
    first pipeline, or of the second when the first found no line. *)
Definition estimate {Frame Overlay Line}
    (run_yellow_segmentation_pipeline run_lane_detection_pipeline :
       Frame -> result (Overlay * option Line))
    (frame : Frame) : result (Overlay * option Line) :=
  match run_yellow_segmentation_pipeline frame with
  | Return (_, None) => run_lane_detection_pipeline frame
  | r => r
  end.

(** Lines 97-101 as a function of the frame: the steering command, or the
    exception of the first call into [toolbox] that raises. *)
Definition steering_of {Frame Overlay Line} (shape : Frame -> Z * Z * Z)
    (run_yellow_segmentation_pipeline run_lane_detection_pipeline :
       Frame -> result (Overlay * option Line))
    (steering_command : option Line -> Z -> result float)
    (frame : Frame) : result float :=
  match estimate run_yellow_segmentation_pipeline run_lane_detection_pipeline frame with
  | Return (_, steering_line) =>
      steering_command steering_line (snd (fst (shape frame)))
  | Raise e => Raise e
  end.

(** The calls into [toolbox] all return on this frame. *)
Definition frame_returns {Frame Overlay Line} (shape : Frame -> Z * Z * Z)
    (run_yellow_segmentation_pipeline run_lane_detection_pipeline :
       Frame -> result (Overlay * option Line))
    (steering_command : option Line -> Z -> result float)
    (frame : Frame) : bool :=
  match steering_of shape run_yellow_segmentation_pipeline
                    run_lane_detection_pipeline steering_command frame with
  | Return _ => true
  | Raise _ => false
  end.

(** The call of [run] a frame is due: one, with its steering command and the
    fixed throttle, when the calls into [toolbox] return on it, none when
    one of them raises. *)
Definition run_for {Frame Overlay Line Image} (shape : Frame -> Z * Z * Z)
    (run_yellow_segmentation_pipeline run_lane_detection_pipeline :
       Frame -> result (Overlay * option Line))
    (steering_command : option Line -> Z -> result float)
    (frame : Frame) : list (call Frame Overlay Line Image) :=
  match steering_of shape run_yellow_segmentation_pipeline
                    run_lane_detection_pipeline steering_command frame with
  | Return steering_cmd => [VescRun steering_cmd THROTTLE]
  | Raise _ => []
  end.

(** The frames got from the queue, in order. *)
Fixpoint got_frames {Frame Overlay Line Image}
    (l : list (call Frame Overlay Line Image)) : list Frame :=
  match l with
  | [] => []
  | QueueGet frame :: l' => frame :: got_frames l'
  | _ :: l' => got_frames l'
  end.

(** Frames and calls of [run] alternate, a frame first: [None] when a frame
    is got while another waits for its call or a call comes with no frame
    waiting; otherwise whether a frame is left waiting at the end. *)
Fixpoint pairing {Frame Overlay Line Image} (pending : bool)
    (l : list (call Frame Overlay Line Image)) : option bool :=
  match l with
  | [] => Some pending
  | QueueGet _ :: l' => if pending then None else pairing true l'
  | VescRun _ _ :: l' => if pending then pairing false l' else None
  | _ :: l' => pairing pending l'
  end.

(** The lane detector finds nothing on frame 5 and [toolbox.steering_command]
    raises on a missing line; otherwise as above. *)
Definition demo_lane_blind (frame : nat) : result (unit * option Z) :=
  Return (tt, if Nat.eqb frame 5 then None else Some 700%Z).

Definition demo_streaming_blind (inputs : list (nat * Z)) :=
  streaming demo_shape demo_yellow demo_lane_blind demo_steering demo_addWeighted
            demo_resize inputs.

(** ** The script (lines 74-110) *)

(** The calls on [depthai] that set the camera up, and the prints between
    them. *)
Inductive camera_call : Type :=
| NewPipeline
| CreateColorCamera
| CreateXLinkOut
| SetStreamName (name : string)
| SetPreviewSize (width height : Z)
| SetInterleaved (interleaved : bool)
| SetColorOrderRGB
| LinkPreview
| DeviceOpen (usb2Mode : bool)
| GetConnectedCameras
| GetUsbSpeed
| GetBootloaderVersion
| CameraPrint (args : list pyval)
| GetOutputQueue (name : string) (maxSize : Z) (blocking : bool)
| DeviceClose.

(** The camera as the script finds it: whether [dai.Device(...)] raises, and
    what the device reports about itself. *)
Record camera : Type := mkCamera {
  device_error : option exn;
  connected_cameras : string;
  usb_speed : string;
  bootloader_version : option string
}.

(** Lines 77-85, up to and including the call that opens the device. *)
Definition camera_setup : list camera_call :=
  [NewPipeline; CreateColorCamera; CreateXLinkOut;
   SetStreamName "rgb"; SetPreviewSize 960 540; SetInterleaved false;
   SetColorOrderRGB; LinkPreview; DeviceOpen true].

(** Lines 87-92, inside the [with] block before the loop. *)
Definition camera_report (D : camera) : list camera_call :=
  [GetConnectedCameras;
   CameraPrint [PStr "Connected cameras: "; PStr (connected_cameras D)];
   GetUsbSpeed;
   CameraPrint [PStr "USB speed: "; PStr (usb_speed D)];
   GetBootloaderVersion] ++
  match bootloader_version D with
  | Some version =>
      [GetBootloaderVersion; CameraPrint [PStr "Bootloader version: "; PStr version]]
  | None => []
  end ++
  [GetOutputQueue "rgb" 4 false].

Section Script.

Variables Frame Overlay Line Image : Type.
Variable shape : Frame -> Z * Z * Z.
Variable run_yellow_segmentation_pipeline : Frame -> result (Overlay * option Line).
Variable run_lane_detection_pipeline : Frame -> result (Overlay * option Line).
Variable steering_command : option Line -> Z -> result float.
Variable addWeighted : Frame -> float -> Overlay -> float -> float -> Image.
Variable resize : Image -> Z * Z -> Image.

(** What the script does, in order. *)
Inductive step : Type :=
| OfInit (c : io)
| OfCamera (c : camera_call)
| OfLoop (c : call Frame Overlay Line Image).

(** The script: how it ends (or that it is still streaming), the controller
    if one was constructed, and what it did.  The controller is constructed
    first; an exception there, or from [dai.Device(...)], ends the script;
    the [with] block closes the device when the loop is left. *)
Definition main (E : env) (D : camera) (inputs : list (Frame * Z)) :
    status * option VESC * list step :=
  match main_vesc E [] with
  | (Raise e, t) => (Aborted e, None, map OfInit t)
  | (Return vesc1, t) =>
      match device_error D with
      | Some e =>
          (Aborted e, Some vesc1, map OfInit t ++ map OfCamera camera_setup)
      | None =>
          let '(st, w) :=
            streaming shape run_yellow_segmentation_pipeline
                      run_lane_detection_pipeline steering_command
                      addWeighted resize inputs (mkWorld vesc1 []) in
          (st, Some (vesc w),
           map OfInit t ++ map OfCamera camera_setup ++
           map OfCamera (camera_report D) ++ map OfLoop (calls w) ++
           match st with
           | Streaming => []
           | _ => [OfCamera DeviceClose]
           end)
      end
  end.

Definition is_loop_step (s : step) : bool :=
  match s with OfLoop _ => true | _ => false end.
Definition is_camera_step (s : step) : bool :=
  match s with OfCamera _ => true | _ => false end.

End Script.

Arguments OfInit {Frame Overlay Line Image} c.
Arguments OfCamera {Frame Overlay Line Image} c.
Arguments OfLoop {Frame Overlay Line Image} c.
Arguments is_loop_step {Frame Overlay Line Image} s.
Arguments is_camera_step {Frame Overlay Line Image} s.
Arguments main {Frame Overlay Line Image} shape run_yellow_segmentation_pipeline
  run_lane_detection_pipeline steering_command addWeighted resize E D inputs.

(** A camera that opens, and one that is not plugged in. *)
Definition camera_ok : camera :=
  mkCamera None "[CameraBoardSocket.RGB]" "HIGH" None.
Definition camera_missing : camera :=
  mkCamera (Some (mkExn "RuntimeError" "No available devices"))
           EmptyString EmptyString None.

Definition demo_main (E : env) (D : camera) (inputs : list (nat * Z)) :=
  main demo_shape demo_yellow demo_lane demo_steering demo_addWeighted
       demo_resize E D inputs.

(** ** Readings of the binary64 specification *)

(** What [k] shifts of [M] keep: a nonnegative mantissa below [M / 2^k],
    with both sticky bits clear when nothing was lost. *)
Definition shr_inv (M k : Z) (r : shr_record) : Prop :=
  (0 <= shr_m r /\
   shr_m r * 2 ^ k <= M /\
   (M = shr_m r * 2 ^ k -> shr_r r = false /\ shr_s r = false))%Z.

(** 1 and -1 as the specification writes them. *)
Definition SF_one : spec_float := S754_finite false 4503599627370496 (-52).
Definition SF_minus_one : spec_float := S754_finite true 4503599627370496 (-52).


(** * Properties of [class VESC] *)

Lemma skipn_length_app {A} (l l' : list A) : skipn (List.length l) (l ++ l') = l'.
Proof.
  induction l as [|a l IH]; simpl; [reflexivity | exact IH].
Qed.

Lemma written_run (self : VESC) (angle throttle : float) :
  written (v (run self angle throttle)) =
  written (v self) ++
  [set_servo (angle * steering_scale self + steering_offset self)%float;
   set_duty_cycle (throttle * percent self)%float].
Proof.
  unfold run, write; simpl. rewrite <- app_assoc. reflexivity.
Qed.

Lemma sent_run (self : VESC) (angle throttle : float) :
  sent self (run self angle throttle) =
  [set_servo (angle * steering_scale self + steering_offset self)%float;
   set_duty_cycle (throttle * percent self)%float].
Proof.
  unfold sent. rewrite written_run. apply skipn_length_app.
Qed.

(** C1: for every angle, steering scale and steering offset, [run] sends the
    transport one servo position, [angle * steering_scale + steering_offset]
    as the floating-point expression gives it, with no clamping: angle 0.5,
    scale 1.0, offset 0.5 gives 1.0; angle -0.5 gives 0.0; and angle 1.0 with
    scale 2.0 and offset 0.5 gives 2.5, outside the servo's range of 0 to 1. *)
Theorem run_servo_command :
  (forall (scale offset pct : float) (t : pyvesc_VESC) (angle throttle : float),
      let self := mkVESC scale offset pct t in
      servo_commands (sent self (run self angle throttle)) =
      [(angle * scale + offset)%float]) /\
  (forall (pct : float) (t : pyvesc_VESC) (throttle : float),
      let self := mkVESC 1.0%float 0.5%float pct t in
      servo_commands (sent self (run self 0.5%float throttle)) = [1.0%float] /\
      servo_commands (sent self (run self (-0.5)%float throttle)) = [0.0%float]) /\
  (forall (pct : float) (t : pyvesc_VESC) (throttle : float),
      let self := mkVESC 2.0%float 0.5%float pct t in
      servo_commands (sent self (run self 1.0%float throttle)) = [2.5%float]).
Proof.
  repeat split; intros; cbv zeta; rewrite sent_run; reflexivity.
Qed.

(** C9: every call of [run] writes exactly two commands to the transport,
    the servo position first and the duty cycle second. *)
Theorem run_two_commands_in_order :
  forall (self : VESC) (angle throttle : float),
    exists servo power : float,
      sent self (run self angle throttle) =
      [set_servo servo; set_duty_cycle power] /\
      written (v (run self angle throttle)) =
      written (v self) ++ [set_servo servo; set_duty_cycle power].
Proof.
  intros self angle throttle.
  exists (angle * steering_scale self + steering_offset self)%float.
  exists (throttle * percent self)%float.
  split; [apply sent_run | apply written_run].
Qed.

(** C10: [run] leaves [steering_scale], [steering_offset] and [percent] as
    they were; of the object only the transport changes, and of the
    transport only what has been written to it. *)
Theorem run_keeps_configuration :
  forall (self : VESC) (angle throttle : float),
    let self' := run self angle throttle in
    steering_scale self' = steering_scale self /\
    steering_offset self' = steering_offset self /\
    percent self' = percent self /\
    serial_port (v self') = serial_port (v self) /\
    has_sensor (v self') = has_sensor (v self) /\
    start_heartbeat (v self') = start_heartbeat (v self) /\
    baudrate (v self') = baudrate (v self) /\
    timeout (v self') = timeout (v self).
Proof.
  intros self angle throttle. simpl. repeat split; reflexivity.
Qed.

Lemma VESC_init_bad_percent (E : env) (port : string) (pct : float)
    (sensor hb : bool) (baud : Z) (tmo scale offset : float) :
  percent_ok pct = false ->
  VESC_init E port pct sensor hb baud tmo scale offset [] =
  match import_pyvesc E with
  | None => (Raise AssertionError, [CallImport "pyvesc"])
  | Some err => (Raise err, snd (do_import E []))
  end.
Proof.
  intros Hp. unfold VESC_init, bind, do_import, try_except, emit, ret, raise.
  destruct (import_pyvesc E) as [err|]; simpl;
    [destruct (is_Exception err); reflexivity|].
  rewrite Hp. reflexivity.
Qed.

(** C3: when [percent] is outside [-1, 1], [__init__] raises and no call to
    open the transport is made; with pyvesc importable the exception is the
    assertion's, raised right after the import.  1.3 is outside the range,
    -1.0 and 1.0 are inside, and with [percent] inside the range, -1.0 for
    one, on a machine where pyvesc imports and the port opens, [__init__]
    returns the controller. *)
Theorem VESC_init_percent_range :
  (forall (E : env) (port : string) (pct : float) (sensor hb : bool)
          (baud : Z) (tmo scale offset : float),
      percent_ok pct = false ->
      let r := VESC_init E port pct sensor hb baud tmo scale offset [] in
      (exists e, fst r = Raise e) /\
      (import_pyvesc E = None -> r = (Raise AssertionError, [CallImport "pyvesc"])) /\
      existsb is_open (snd r) = false) /\
  percent_ok 1.3%float = false /\
  percent_ok (-1.0)%float = true /\
  percent_ok 1.0%float = true /\
  (forall (E : env) (port : string) (pct : float) (sensor hb : bool)
          (baud : Z) (tmo scale offset : float),
      percent_ok pct = true ->
      import_pyvesc E = None ->
      open_port E port = None ->
      VESC_init E port pct sensor hb baud tmo scale offset [] =
      (Return (mkVESC scale offset pct (mkTransport port sensor hb baud tmo [])),
       [CallImport "pyvesc"; CallOpen port sensor hb baud tmo])).
Proof.
  split; [|split; [|split; [|split]]]; try reflexivity.
  - intros E port pct sensor hb baud tmo scale offset Hp r. subst r.
    rewrite (VESC_init_bad_percent E port pct sensor hb baud tmo scale offset Hp).
    unfold do_import, try_except, bind, emit, raise, ret.
    destruct (import_pyvesc E) as [err|]; simpl.
    + split; [exists err; reflexivity|]. split; [discriminate|].
      destruct (is_Exception err); reflexivity.
    + split; [exists AssertionError; reflexivity|]. split; reflexivity.
  - intros E port pct sensor hb baud tmo scale offset Hp Hi Ho.
    unfold VESC_init, bind, do_import, do_open, try_except, emit, ret, raise.
    rewrite Hi. simpl. rewrite Hp. simpl. rewrite Ho. reflexivity.
Qed.

Lemma VESC_init_percent_range_witness :
  (let r := VESC_init env_ok "/dev/ttyACM0" 1.3%float false true 115200
                      0.05%float 1.0%float 0.5%float [] in
   (exists e, fst r = Raise e) /\
   (import_pyvesc env_ok = None ->
    r = (Raise AssertionError, [CallImport "pyvesc"])) /\
   existsb is_open (snd r) = false) /\
  VESC_init env_ok "/dev/ttyACM0" (-1.0)%float false true 115200
            0.05%float 1.0%float 0.5%float [] =
  (Return (mkVESC 1.0%float 0.5%float (-1.0)%float
                  (mkTransport "/dev/ttyACM0" false true 115200 0.05%float [])),
   [CallImport "pyvesc"; CallOpen "/dev/ttyACM0" false true 115200 0.05%float]).
Proof.
  split.
  - exact (proj1 VESC_init_percent_range env_ok "/dev/ttyACM0" 1.3%float
                 false true 115200%Z 0.05%float 1.0%float 0.5%float eq_refl).
  - exact (proj2 (proj2 (proj2 (proj2 VESC_init_percent_range)))
                 env_ok "/dev/ttyACM0" (-1.0)%float false true 115200%Z
                 0.05%float 1.0%float 0.5%float eq_refl eq_refl eq_refl).
Defined.

(** C8, as the code has it: when the call that opens the transport raises,
    [__init__] raises that same exception again, whatever it is; the
    controller does not sort the failure into kinds.  For an [Exception] it
    first prints it, prints the hint naming the command that grants access
    to the port (the same hint whatever the cause) and sleeps; any other
    exception passes with nothing printed.  The transport is opened once and
    not again. *)
Theorem VESC_init_open_fails :
  forall (E : env) (port : string) (pct : float) (sensor hb : bool)
         (baud : Z) (tmo scale offset : float) (err : exn),
    import_pyvesc E = None ->
    percent_ok pct = true ->
    open_port E port = Some err ->
    let r := VESC_init E port pct sensor hb baud tmo scale offset [] in
    r = (Raise err,
         [CallImport "pyvesc"; CallOpen port sensor hb baud tmo] ++
         if is_Exception err then
           [CallPrint [PStr (repeat_str 4 LF); PExn err];
            CallPrint [PStr (LF ++ LF ++ "to fix permission denied errors, try running the following command:")%string];
            CallPrint [PStr ("sudo chmod a+rw " ++ port)%string; PStr (repeat_str 4 LF)];
            CallSleep 1]
         else []) /\
    count_open (snd r) = 1%nat.
Proof.
  intros E port pct sensor hb baud tmo scale offset err Hi Hp Ho r. subst r.
  unfold VESC_init, bind, do_import, do_open, try_except, emit, ret, raise.
  rewrite Hi. simpl. rewrite Hp. simpl. rewrite Ho. simpl.
  destruct (is_Exception err); split; reflexivity.
Qed.

Lemma VESC_init_open_fails_witness :
  (fst (main_vesc env_denied []) = Raise permission_denied /\
   count_open (snd (main_vesc env_denied [])) = 1%nat) /\
  (fst (main_vesc env_unreachable []) = Raise unreachable /\
   count_open (snd (main_vesc env_unreachable [])) = 1%nat) /\
  main_vesc env_interrupted [] =
  (Raise interrupted,
   [CallImport "pyvesc"; CallOpen "/dev/ttyACM0" false true 115200 0.05%float]).
Proof.
  split; [|split].
  - pose proof (VESC_init_open_fails env_denied "/dev/ttyACM0" 0.2%float
                  false true 115200%Z 0.05%float 1.0%float 0.5%float
                  permission_denied eq_refl eq_refl eq_refl) as [H1 H2].
    split; [exact (f_equal fst H1) | exact H2].
  - pose proof (VESC_init_open_fails env_unreachable "/dev/ttyACM0" 0.2%float
                  false true 115200%Z 0.05%float 1.0%float 0.5%float
                  unreachable eq_refl eq_refl eq_refl) as [H1 H2].
    split; [exact (f_equal fst H1) | exact H2].
  - exact (proj1 (VESC_init_open_fails env_interrupted "/dev/ttyACM0" 0.2%float
                    false true 115200%Z 0.05%float 1.0%float 0.5%float
                    interrupted eq_refl eq_refl eq_refl)).
Defined.

(** Against C8 as it was claimed: with no such device the exception
    [__init__] raises is the transport's own, of the same class as when
    access is refused, not an error of a kind of its own; what is printed
    after it is the same in both cases, the hint for permission errors; and
    an interrupt while the port is being opened is raised with no hint at
    all. *)
Lemma VESC_init_open_fails_counterexample :
  fst (main_vesc env_unreachable []) = Raise unreachable /\
  fst (main_vesc env_denied []) = Raise permission_denied /\
  exn_class unreachable = exn_class permission_denied /\
  skipn 3 (snd (main_vesc env_unreachable [])) =
  skipn 3 (snd (main_vesc env_denied [])) /\
  In (CallPrint [PStr (LF ++ LF ++ "to fix permission denied errors, try running the following command:")%string])
     (snd (main_vesc env_unreachable [])) /\
  skipn 2 (snd (main_vesc env_interrupted [])) = [].
Proof.
  repeat split; try reflexivity.
  vm_compute. right. right. right. left. reflexivity.
Qed.

(** * The power command: rounding of a product *)

Section Rounding.

Local Open Scope Z_scope.

Lemma digits2_pos_bounds (p : positive) :
  2 ^ (Zpos (digits2_pos p) - 1) <= Zpos p < 2 ^ Zpos (digits2_pos p).
Proof.
  induction p as [p IH | p IH |]; simpl digits2_pos.
  - rewrite Pos2Z.inj_succ, Z.pow_succ_r by lia.
    replace (Z.succ (Zpos (digits2_pos p)) - 1) with (Z.succ (Zpos (digits2_pos p) - 1)) by lia.
    rewrite Z.pow_succ_r by lia. lia.
  - rewrite Pos2Z.inj_succ, Z.pow_succ_r by lia.
    replace (Z.succ (Zpos (digits2_pos p)) - 1) with (Z.succ (Zpos (digits2_pos p) - 1)) by lia.
    rewrite Z.pow_succ_r by lia. lia.
  - simpl. lia.
Qed.

(** Magnitudes follow values: with a common offset [K] making the exponents
    nonnegative, a smaller [a * 2^ea] has no more digits above the point. *)
Lemma magnitude_le (a b : positive) (ea eb K : Z) :
  0 <= ea + K -> 0 <= eb + K ->
  Zpos a * 2 ^ (ea + K) <= Zpos b * 2 ^ (eb + K) ->
  Zpos (digits2_pos a) + ea <= Zpos (digits2_pos b) + eb.
Proof.
  intros Ha Hb H.
  destruct (digits2_pos_bounds a) as [La _].
  destruct (digits2_pos_bounds b) as [_ Ub].
  assert (H1 : 2 ^ (Zpos (digits2_pos a) - 1 + (ea + K)) <= Zpos a * 2 ^ (ea + K)).
  { rewrite (Z.pow_add_r 2 (Zpos (digits2_pos a) - 1) (ea + K)) by lia. apply Z.mul_le_mono_nonneg_r; [apply Z.pow_nonneg; lia | exact La]. }
  assert (H2 : Zpos b * 2 ^ (eb + K) < 2 ^ (Zpos (digits2_pos b) + (eb + K))).
  { rewrite (Z.pow_add_r 2 (Zpos (digits2_pos b)) (eb + K)) by lia. apply Z.mul_lt_mono_pos_r; [apply Z.pow_pos_nonneg; lia | exact Ub]. }
  assert (H3 : 2 ^ (Zpos (digits2_pos a) - 1 + (ea + K)) < 2 ^ (Zpos (digits2_pos b) + (eb + K))) by lia.
  apply Z.pow_lt_mono_r_iff in H3; lia.
Qed.

(** ** Shifting right *)

Lemma shr_inv_1 (M k : Z) (r : shr_record) :
  0 <= k -> shr_inv M k r -> shr_inv M (k + 1) (shr_1 r).
Proof.
  intros Hk [H0 [H1 H2]]. destruct r as [m r s]; simpl in *.
  assert (P : 0 < 2 ^ k) by (apply Z.pow_pos_nonneg; lia).
  assert (Q : 2 ^ (k + 1) = 2 * 2 ^ k) by (rewrite Z.pow_add_r, Z.pow_1_r by lia; lia).
  destruct m as [|[p|p|]|p]; [| | | |exfalso; lia];
    unfold shr_inv; cbn [shr_1 shr_m shr_r shr_s]; rewrite Q.
  - split; [lia|]. split; [lia|]. intros E.
    assert (E' : M = 0 * 2 ^ k) by lia. destruct (H2 E') as [-> ->]. split; reflexivity.
  - rewrite (Pos2Z.inj_xI p) in *. split; [lia|]. split; [nia|]. intros E. exfalso. nia.
  - rewrite (Pos2Z.inj_xO p) in *. split; [lia|]. split; [nia|]. intros E.
    assert (E' : M = 2 * Z.pos p * 2 ^ k) by nia. destruct (H2 E') as [-> ->]. split; reflexivity.
  - split; [lia|]. split; [nia|]. intros E. exfalso. nia.
Qed.

Lemma shr_inv_iter (M : Z) (n : positive) :
  forall (k : Z) (r : shr_record),
    0 <= k -> shr_inv M k r -> shr_inv M (k + Zpos n) (iter_pos shr_1 n r).
Proof.
  induction n as [n IH | n IH |]; intros k r Hk H; simpl.
  - replace (k + Zpos n~1) with ((k + 1 + Zpos n) + Zpos n) by lia.
    apply IH; [lia|]. apply IH; [lia|]. apply shr_inv_1; assumption.
  - replace (k + Zpos n~0) with ((k + Zpos n) + Zpos n) by lia.
    apply IH; [lia|]. apply IH; assumption.
  - apply shr_inv_1; assumption.
Qed.

Lemma fexp_le (a b : Z) : a <= b -> fexp prec emax a <= fexp prec emax b.
Proof. unfold fexp. lia. Qed.

(** The first shift of [binary_round_aux] and the rounding to nearest even:
    the mantissa stays at or below every point [G] of the new grid that the
    value does not exceed. *)
Lemma round_step (M E : Z) :
  0 < M ->
  forall mrs e',
    shr_fexp prec emax M E loc_Exact = (mrs, e') ->
    let m1 := round_nearest_even (shr_m mrs) (loc_of_shr_record mrs) in
    e' = Z.max E (fexp prec emax (Zdigits2 M + E)) /\
    0 <= m1 /\
    forall G, M <= G * 2 ^ (e' - E) -> m1 <= G.
Proof.
  intros HM mrs e'. unfold shr_fexp, shr. cbn [shr_record_of_loc].
  destruct (fexp prec emax (Zdigits2 M + E) - E) as [|n|n] eqn:Hn; intros H;
    inversion H; subst; clear H.
  - cbn. split; [lia|]. split; [lia|]. intros G. rewrite Z.sub_diag. simpl. lia.
  - assert (I : shr_inv M (0 + Zpos n) (iter_pos shr_1 n (Build_shr_record M false false))).
    { apply shr_inv_iter; [lia|]. unfold shr_inv; simpl. repeat split; lia. }
    destruct (iter_pos shr_1 n (Build_shr_record M false false)) as [m r s].
    destruct I as [I0 [I1 I2]]; simpl in I0, I1, I2.
    split; [lia|].
    replace (E + Zpos n - E) with (Zpos n) by lia.
    assert (P : 0 < 2 ^ Zpos n) by (apply Z.pow_pos_nonneg; lia).
    split.
    + destruct r, s; simpl; try lia; destruct (Z.even m); lia.
    + intros G HG. assert (Hm : m <= G) by nia.
      destruct (Z.eq_dec m G) as [->|Hne].
      * assert (EM : M = G * 2 ^ (0 + Zpos n)) by (simpl (0 + Zpos n); lia).
        destruct (I2 EM) as [-> ->]. simpl. lia.
      * destruct r, s; simpl; try lia; destruct (Z.even m); lia.
  - cbn. split; [lia|]. split; [lia|]. intros G. rewrite Z.sub_diag. simpl. lia.
Qed.

(** The second shift, of an exact mantissa: it only truncates. *)
Lemma trunc_step (m1 e' : Z) :
  0 <= m1 ->
  forall mrs e'',
    shr_fexp prec emax m1 e' loc_Exact = (mrs, e'') ->
    e'' = Z.max e' (fexp prec emax (Zdigits2 m1 + e')) /\
    0 <= shr_m mrs /\
    shr_m mrs * 2 ^ (e'' - e') <= m1.
Proof.
  intros Hm mrs e''. unfold shr_fexp, shr. cbn [shr_record_of_loc].
  destruct (fexp prec emax (Zdigits2 m1 + e') - e') as [|n|n] eqn:Hn; intros H;
    inversion H; subst; clear H.
  - cbn. rewrite Z.sub_diag. simpl. lia.
  - assert (I : shr_inv m1 (0 + Zpos n) (iter_pos shr_1 n (Build_shr_record m1 false false))).
    { apply shr_inv_iter; [lia|]. unfold shr_inv; simpl. repeat split; lia. }
    destruct I as [I0 [I1 _]].
    replace (e' + Zpos n - e') with (Zpos n) by lia.
    simpl (0 + Zpos n) in I1. lia.
  - cbn. rewrite Z.sub_diag. simpl. lia.
Qed.

(** Rounding [M * 2^E] cannot pass a representable number it does not
    exceed. *)
Lemma binary_round_aux_le (s : bool) (M my : positive) (E ey K : Z) :
  0 <= E + K ->
  E <= ey ->
  Zpos M * 2 ^ (E + K) <= Zpos my * 2 ^ (ey + K) ->
  canonical_mantissa prec emax my ey = true ->
  ey <= emax - prec ->
  match binary_round_aux prec emax s (Zpos M) E loc_Exact with
  | S754_zero _ => True
  | S754_finite _ m e => e < ey \/ (e = ey /\ Zpos m <= Zpos my)
  | _ => False
  end.
Proof.
  intros HK HE Hle Hcan Hey.
  apply Z.eqb_eq in Hcan.
  unfold binary_round_aux.
  destruct (shr_fexp prec emax (Zpos M) E loc_Exact) as [mrs' e'] eqn:H1.
  destruct (round_step (Zpos M) E (Pos2Z.is_pos M) mrs' e' H1) as [He' [Hm1 HG]].
  set (m1 := round_nearest_even (shr_m mrs') (loc_of_shr_record mrs')) in *.
  destruct (shr_fexp prec emax m1 e' loc_Exact) as [mrs'' e''] eqn:H2.
  destruct (trunc_step m1 e' Hm1 mrs'' e'' H2) as [He'' [Hm2 Hle2]].
  assert (F1 : Zpos (digits2_pos M) + E <= Zpos (digits2_pos my) + ey)
    by (apply (magnitude_le M my E ey K); lia).
  assert (F2 : fexp prec emax (Zdigits2 (Zpos M) + E) <= ey)
    by (rewrite <- Hcan; apply fexp_le; exact F1).
  assert (Le' : E <= e' <= ey) by lia.
  assert (PK : 0 < 2 ^ (E + K)) by (apply Z.pow_pos_nonneg; lia).
  assert (P1 : 0 < 2 ^ (e' - E)) by (apply Z.pow_pos_nonneg; lia).
  assert (P2 : 0 < 2 ^ (ey - e')) by (apply Z.pow_pos_nonneg; lia).
  assert (P3 : 0 < 2 ^ (e'' - e')) by (apply Z.pow_pos_nonneg; lia).
  assert (S1 : 2 ^ (ey + K) = 2 ^ (ey - e') * 2 ^ (e' - E) * 2 ^ (E + K)).
  { rewrite <- !Z.pow_add_r by lia. f_equal. lia. }
  assert (Hm1G : m1 <= Zpos my * 2 ^ (ey - e')).
  { apply HG. rewrite S1 in Hle. nia. }
  destruct (Z.eq_dec m1 0) as [Z1|NZ1].
  - assert (Z2 : shr_m mrs'' = 0) by nia. rewrite Z2. exact I.
  - destruct m1 as [|q|q] eqn:Em1; [congruence| |lia].
    assert (S2 : 2 ^ (ey + K) = 2 ^ (ey - e') * 2 ^ (e' + K)).
    { rewrite <- Z.pow_add_r by lia. f_equal. lia. }
    assert (PK' : 0 < 2 ^ (e' + K)) by (apply Z.pow_pos_nonneg; lia).
    assert (F3 : Zpos (digits2_pos q) + e' <= Zpos (digits2_pos my) + ey).
    { apply (magnitude_le q my e' ey K); [lia | lia |]. rewrite S2. nia. }
    assert (F4 : fexp prec emax (Zdigits2 (Zpos q) + e') <= ey)
      by (rewrite <- Hcan; apply fexp_le; exact F3).
    assert (Le'' : e'' <= ey) by lia.
    destruct (shr_m mrs'') as [|m|m]; [exact I| |lia].
    replace (e'' <=? emax - prec) with true by (symmetry; apply Z.leb_le; lia).
    destruct (Z.eq_dec e'' ey) as [->|Hne]; [right | left; lia].
    split; [reflexivity|]. nia.
Qed.

(** ** Numbers between -1 and 1 *)

Lemma valid_finite (s : bool) (m : positive) (e : Z) :
  valid_binary (S754_finite s m e) = true ->
  canonical_mantissa prec emax m e = true /\
  e <= emax - prec /\ -1074 <= e /\ Zpos (digits2_pos m) <= 53.
Proof.
  simpl. unfold bounded. intros H. apply andb_true_iff in H as [Hc Hb].
  apply Z.leb_le in Hb. split; [exact Hc|]. split; [exact Hb|].
  apply Z.eqb_eq in Hc. unfold fexp, SpecFloat.emin, prec, emax in Hc. lia.
Qed.

(** A valid finite number between -1 and 1 has [m * 2^e <= 1]; the offset
    [K] keeps the powers in the integers. *)
Lemma finite_le_one (s : bool) (m : positive) (e K : Z) :
  1074 <= K ->
  valid_binary (S754_finite s m e) = true ->
  SFleb (S754_finite s m e) SF_one = true ->
  SFleb SF_minus_one (S754_finite s m e) = true ->
  e <= -52 /\ Zpos m * 2 ^ (e + K) <= 2 ^ K.
Proof.
  intros HK Hv H1 H2.
  destruct (valid_finite s m e Hv) as [_ [_ [Hlo Hd]]].
  destruct (digits2_pos_bounds m) as [_ Um].
  assert (U53 : Zpos m < 2 ^ 53).
  { eapply Z.lt_le_trans; [exact Um|]. apply Z.pow_le_mono_r; lia. }
  assert (Small : e < -52 -> e <= -52 /\ Zpos m * 2 ^ (e + K) <= 2 ^ K).
  { intros He. split; [lia|].
    assert (P : 0 < 2 ^ (e + K)) by (apply Z.pow_pos_nonneg; lia).
    assert (Q : 2 ^ (e + K) <= 2 ^ (K - 53)) by (apply Z.pow_le_mono_r; lia).
    assert (S : 2 ^ K = 2 ^ 53 * 2 ^ (K - 53)).
    { rewrite <- Z.pow_add_r by lia. f_equal. lia. }
    rewrite S. nia. }
  assert (Same : e = -52 -> Zpos m <= 4503599627370496 ->
                 e <= -52 /\ Zpos m * 2 ^ (e + K) <= 2 ^ K).
  { intros He Hm. split; [lia|].
    assert (P : 0 < 2 ^ (e + K)) by (apply Z.pow_pos_nonneg; lia).
    assert (S : 2 ^ K = 2 ^ 52 * 2 ^ (e + K)).
    { rewrite <- Z.pow_add_r by lia. f_equal. lia. }
    rewrite S. change (2 ^ 52) with 4503599627370496. nia. }
  destruct s.
  - clear H1. unfold SFleb, SF_minus_one, SFcompare in H2.
    destruct (Z.compare_spec (-52) e) as [He|He|He].
    + apply Same; [lia|].
      rewrite Pos.compare_cont_spec in H2.
      destruct (Pos.compare 4503599627370496 m) eqn:C; cbn [Pos.switch_Eq CompOpp] in H2;
        try discriminate.
      * apply Pos.compare_eq in C. subst m. apply Z.le_refl.
      * apply Pos.compare_gt_iff in C. apply Z.lt_le_incl, Pos2Z.pos_lt_pos, C.
    + discriminate.
    + apply Small. lia.
  - clear H2. unfold SFleb, SF_one, SFcompare in H1.
    destruct (Z.compare_spec e (-52)) as [He|He|He].
    + apply Same; [lia|].
      rewrite Pos.compare_cont_spec in H1.
      destruct (Pos.compare m 4503599627370496) eqn:C; cbn [Pos.switch_Eq] in H1;
        try discriminate.
      * apply Pos.compare_eq in C. subst m. apply Z.le_refl.
      * apply Pos.compare_lt_iff in C. apply Z.lt_le_incl, Pos2Z.pos_lt_pos, C.
    + apply Small. lia.
    + discriminate.
Qed.

(** The product of a number between -1 and 1 with another is no larger in
    magnitude than the other, rounding included. *)
Lemma SFmul_abs_le (x y : spec_float) :
  valid_binary x = true ->
  valid_binary y = true ->
  SFleb x SF_one = true -> SFleb SF_minus_one x = true ->
  SFleb y SF_one = true -> SFleb SF_minus_one y = true ->
  SFleb (SFabs (SFmul prec emax x y)) (SFabs y) = true.
Proof.
  intros Vx Vy X1 X2 Y1 Y2.
  destruct x as [sx|sx| |sx mx ex]; try discriminate;
    try (destruct sx; discriminate);
    destruct y as [sy|sy| |sy my ey]; try discriminate;
    try (destruct sy; discriminate); try reflexivity.
  remember 2148 as K eqn:EK.
  remember 1074 as K0 eqn:EK0.
  destruct (finite_le_one sx mx ex K0 ltac:(lia) Vx X1 X2) as [Hex Hx].
  destruct (valid_finite sx mx ex Vx) as [_ [_ [Lx _]]].
  destruct (valid_finite sy my ey Vy) as [Cy [Uy [Ly _]]].
  assert (PX : 0 < 2 ^ (ex + K0)) by (apply Z.pow_pos_nonneg; lia).
  assert (PY : 0 < 2 ^ (ey + K0)) by (apply Z.pow_pos_nonneg; lia).
  assert (P0 : 0 < 2 ^ K0) by (apply Z.pow_pos_nonneg; lia).
  assert (S1 : 2 ^ (ex + ey + K) = 2 ^ (ex + K0) * 2 ^ (ey + K0)).
  { rewrite <- Z.pow_add_r by lia. f_equal. lia. }
  assert (S2 : 2 ^ (ey + K) = 2 ^ K0 * 2 ^ (ey + K0)).
  { rewrite <- Z.pow_add_r by lia. f_equal. lia. }
  assert (Hle : Zpos (mx * my) * 2 ^ (ex + ey + K) <= Zpos my * 2 ^ (ey + K)).
  { rewrite S1, S2, Pos2Z.inj_mul. nia. }
  pose proof (binary_round_aux_le (xorb sx sy) (mx * my) my (ex + ey) ey K
                ltac:(lia) ltac:(lia) Hle Cy Uy) as R.
  cbn [SFmul SFabs].
  destruct (binary_round_aux prec emax (xorb sx sy) (Zpos (mx * my)) (ex + ey) loc_Exact)
    as [s|s| |s m e]; try contradiction; [reflexivity|].
  cbn [SFabs]. unfold SFleb, SFcompare.
  destruct R as [Hlt | [-> Hm]].
  - rewrite (proj2 (Z.compare_lt_iff e ey) Hlt). reflexivity.
  - rewrite Z.compare_refl.
    rewrite Pos.compare_cont_spec.
    destruct (Pos.compare m my) eqn:C; try reflexivity.
    apply Pos.compare_gt_iff in C. apply Pos2Z.pos_lt_pos in C. lia.
Qed.

(** For binary64 numbers [t] and [p] between -1 and 1, the product as the
    processor rounds it has magnitude at most that of [p]. *)
Lemma mul_abs_le (t p : float) :
  (-1 <=? t)%float = true -> (t <=? 1)%float = true ->
  (-1 <=? p)%float = true -> (p <=? 1)%float = true ->
  (abs (t * p) <=? abs p)%float = true.
Proof.
  rewrite !leb_spec, !abs_spec, mul_spec.
  intros T1 T2 P1 P2.
  apply SFmul_abs_le; try apply Prim2SF_valid; assumption.
Qed.

End Rounding.

(** C2: for every throttle and every [percent] between -1 and 1, [run] sends
    the transport one duty cycle, [throttle * percent] as binary64
    multiplication gives it, and its magnitude is at most that of
    [percent]. *)
Theorem run_power_command :
  forall (self : VESC) (angle throttle : float),
    (-1 <=? throttle)%float = true ->
    (throttle <=? 1)%float = true ->
    (-1 <=? percent self)%float = true ->
    (percent self <=? 1)%float = true ->
    power_commands (sent self (run self angle throttle)) =
    [(throttle * percent self)%float] /\
    (abs (throttle * percent self) <=? abs (percent self))%float = true.
Proof.
  intros self angle throttle T1 T2 P1 P2. split.
  - rewrite sent_run. reflexivity.
  - apply mul_abs_le; assumption.
Qed.

Lemma run_power_command_witness :
  power_commands (sent vesc0 (run vesc0 0.5%float 1.0%float)) = [0.2%float] /\
  (abs 0.2 <=? abs 0.2)%float = true.
Proof.
  exact (run_power_command vesc0 0.5%float 1.0%float
           eq_refl eq_refl eq_refl eq_refl).
Defined.

(** * Properties of the loop *)

Lemma splits_complete {A} (l l1 l2 : list A) (c : A) :
  l = l1 ++ c :: l2 -> In (l1, c, l2) (splits l).
Proof.
  revert l. induction l1 as [|a l1 IH]; intros l ->; simpl.
  - left; reflexivity.
  - right. apply in_map_iff. exists (l1, c, l2). split; [reflexivity|].
    apply IH. reflexivity.
Qed.

(** A property checked on every split of a list holds of each of them. *)
Lemma forall_splits {A} (check : list A * A * list A -> bool) (l : list A) :
  forallb check (splits l) = true ->
  forall l1 c l2, l = l1 ++ c :: l2 -> check (l1, c, l2) = true.
Proof.
  intros H l1 c l2 E. rewrite forallb_forall in H.
  apply H. apply splits_complete. exact E.
Qed.

(** A call found in [l ++ r] that nothing of [l] looks like is in [r]. *)
Lemma app_split_right {A} (p : A -> bool) (l r l1 l2 : list A) (c : A) :
  existsb p l = false ->
  p c = true ->
  l ++ r = l1 ++ c :: l2 ->
  exists l1', l1 = l ++ l1' /\ r = l1' ++ c :: l2.
Proof.
  revert l1. induction l as [|a l IH]; intros l1 Hl Hc E; simpl in *.
  - exists l1. split; [reflexivity | exact E].
  - apply orb_false_iff in Hl as [Ha Hl].
    destruct l1 as [|b l1]; simpl in E; inversion E; subst.
    + rewrite Hc in Ha. discriminate.
    + destruct (IH l1 Hl Hc H1) as [l1' [-> ->]].
      exists l1'. split; reflexivity.
Qed.

Lemma paired_app {Frame Overlay Line Image}
    (l1 l2 : list (call Frame Overlay Line Image)) (b : bool) :
  paired b l1 = true -> paired b (l1 ++ l2) = paired false l2.
Proof.
  revert b. induction l1 as [|c l1 IH]; intros b H; simpl in *.
  - destruct b; [discriminate | reflexivity].
  - destruct c; try (apply IH; exact H).
    + apply andb_true_iff in H as [Hb H]. rewrite Hb. simpl. apply IH. exact H.
    + apply andb_true_iff in H as [Hb H]. rewrite Hb. simpl. apply IH. exact H.
Qed.

Lemma paired_counts {Frame Overlay Line Image}
    (l : list (call Frame Overlay Line Image)) (b : bool) :
  paired b l = true ->
  List.length (filter is_run l) =
  (List.length (filter is_get l) + (if b then 1 else 0))%nat.
Proof.
  revert b. induction l as [|c l IH]; intros b H; simpl in *.
  - destruct b; [discriminate | reflexivity].
  - destruct c; simpl; try (apply IH; exact H).
    + apply andb_true_iff in H as [Hb H]. destruct b; [discriminate|].
      rewrite (IH true H). simpl. lia.
    + apply andb_true_iff in H as [Hb H]. destruct b; [|discriminate].
      rewrite (IH false H). simpl. lia.
Qed.

Section MainProperties.

Context {Frame Overlay Line Image : Type}.
Variable shape : Frame -> Z * Z * Z.
Variable run_yellow_segmentation_pipeline : Frame -> result (Overlay * option Line).
Variable run_lane_detection_pipeline : Frame -> result (Overlay * option Line).
Variable steering_command : option Line -> Z -> result float.
Variable addWeighted : Frame -> float -> Overlay -> float -> float -> Image.
Variable resize : Image -> Z * Z -> Image.

Local Notation "'World'" := (world Frame Overlay Line Image).
Local Notation "'Call'" := (call Frame Overlay Line Image).
Local Notation "'the_cycle'" :=
  (cycle shape run_yellow_segmentation_pipeline run_lane_detection_pipeline
         steering_command addWeighted resize).
Local Notation "'the_loop'" :=
  (streaming shape run_yellow_segmentation_pipeline run_lane_detection_pipeline
             steering_command addWeighted resize).

Lemma issued_app (w : World) (u : VESC) (t : list Call) :
  issued w (mkWorld u (calls w ++ t)) = t.
Proof.
  unfold issued; simpl. apply skipn_length_app.
Qed.

Lemma cycle_cases (frame : Frame) (key : Z) (w : World) :
  cycle_run shape run_yellow_segmentation_pipeline run_lane_detection_pipeline
            steering_command addWeighted resize frame key w
            (fst (the_cycle frame key w)) (snd (the_cycle frame key w)).
Proof.
  unfold cycle, bind, extern, log, vesc_run, ret.
  destruct (run_yellow_segmentation_pipeline frame) as [[ov [l|]]|e] eqn:Hy; simpl.
  - destruct (steering_command (Some l) (snd (fst (shape frame)))) as [cmd|e] eqn:Hs;
      simpl; rewrite <- !app_assoc; simpl.
    + apply (cycle_returns _ _ _ _ _ _ _ _ _ _ frame key w false ov (Some l) cmd);
        [split; [exact Hy | discriminate] | exact Hs].
    + apply (command_raises _ _ _ _ _ _ _ _ _ _ frame key w false ov (Some l) e);
        [split; [exact Hy | discriminate] | exact Hs].
  - destruct (run_lane_detection_pipeline frame) as [[ov2 l2]|e] eqn:Hl; simpl.
    + destruct (steering_command l2 (snd (fst (shape frame)))) as [cmd|e] eqn:Hs;
        simpl; rewrite <- !app_assoc; simpl.
      * apply (cycle_returns _ _ _ _ _ _ _ _ _ _ frame key w true ov2 l2 cmd);
          [split; [exists ov; exact Hy | exact Hl] | exact Hs].
      * apply (command_raises _ _ _ _ _ _ _ _ _ _ frame key w true ov2 l2 e);
          [split; [exists ov; exact Hy | exact Hl] | exact Hs].
    + rewrite <- !app_assoc; simpl.
      apply (fallback_raises _ _ _ _ _ _ _ _ _ _ frame key w ov e); [exact Hy | exact Hl].
  - rewrite <- !app_assoc; simpl.
    apply (primary_raises _ _ _ _ _ _ _ _ _ _ frame key w e). exact Hy.
Qed.

Lemma length_written_run (self : VESC) (angle throttle : float) :
  List.length (written (v (run self angle throttle))) =
  (List.length (written (v self)) + 2)%nat.
Proof.
  rewrite written_run, length_app. reflexivity.
Qed.

(** The trace of one cycle: the calls before the poll never look like a stop;
    a cycle that returns got one frame, made one call of [run] after it and
    polled the keyboard last. *)
Lemma cycle_trace (frame : Frame) (key : Z) (w : World) :
  exists pre : list Call,
    existsb is_stop pre = false /\
    match fst (the_cycle frame key w) with
    | Return b =>
        calls (snd (the_cycle frame key w)) = calls w ++ pre ++ [WaitKey 1 key] /\
        b = (key =? ord_q)%Z /\
        paired false pre = true /\
        List.length (filter is_get pre) = 1%nat /\
        List.length (written (v (vesc (snd (the_cycle frame key w))))) =
        (List.length (written (v (vesc w))) + 2)%nat
    | Raise e =>
        calls (snd (the_cycle frame key w)) = calls w ++ pre /\
        vesc (snd (the_cycle frame key w)) = vesc w
    end.
Proof.
  pose proof (cycle_cases frame key w) as HC.
  destruct (the_cycle frame key w) as [r w']; simpl in *.
  inversion HC as [e Hy | ov e Hy Hl | fb ov l e Hf Hs | fb ov l cmd Hf Hs]; subst; simpl.
  - eexists; split; [|split; reflexivity]. reflexivity.
  - eexists; split; [|split; reflexivity]. reflexivity.
  - eexists; split; [|split; reflexivity]. destruct fb; reflexivity.
  - exists ([QueueGet frame; YellowSegmentation frame] ++
            (if fb then [LaneDetection frame] else []) ++
            [SteeringCommand l (snd (fst (shape frame)));
             PrintCmd cmd;
             VescRun cmd THROTTLE;
             AddWeighted frame 0.8%float ov 1%float 1%float;
             Resize (addWeighted frame 0.8%float ov 1%float 1%float) (480, 270)%Z;
             Imshow "frame" (resize (addWeighted frame 0.8%float ov 1%float 1%float) (480, 270)%Z)]).
    split; [destruct fb; reflexivity|].
    split; [destruct fb; reflexivity|].
    split; [reflexivity|].
    split; [destruct fb; reflexivity|].
    split; [destruct fb; reflexivity|].
    apply length_written_run.
Qed.

(** C4: in a cycle the lane-detection pipeline is called exactly when the
    yellow-segmentation pipeline returned no steering line, once and on the
    same frame; it is not called when the first pipeline returned a line,
    nor when it raised, and then the cycle raises the same exception. *)
Theorem fallback_iff_primary_absent :
  forall (frame : Frame) (key : Z) (w : World),
    let r := the_cycle frame key w in
    let tr := issued w (snd r) in
    filter is_lane tr =
      match run_yellow_segmentation_pipeline frame with
      | Return (_, None) => [LaneDetection frame]
      | _ => []
      end /\
    (existsb is_lane tr = true <->
     exists overlay, run_yellow_segmentation_pipeline frame = Return (overlay, None)) /\
    match run_yellow_segmentation_pipeline frame with
    | Raise e => fst r = Raise e
    | Return _ => True
    end.
Proof.
  intros frame key w r tr. subst tr r.
  pose proof (cycle_cases frame key w) as HC.
  destruct (the_cycle frame key w) as [r w']; simpl in *.
  inversion HC as [e Hy | ov e Hy Hl | fb ov l e Hf Hs | fb ov l cmd Hf Hs];
    subst; rewrite issued_app.
  - rewrite Hy; simpl. repeat split; try discriminate.
    intros [o Ho]; discriminate.
  - rewrite Hy; simpl. repeat split. exists ov; reflexivity.
  - destruct fb.
    + destruct Hf as [[o Hy] Hl]. rewrite Hy; simpl.
      repeat split. exists o; reflexivity.
    + destruct Hf as [Hy Hn]. rewrite Hy. destruct l as [l|]; [|congruence]. simpl.
      repeat split; try discriminate. intros [o Ho]; discriminate.
  - destruct fb.
    + destruct Hf as [[o Hy] Hl]. rewrite Hy; simpl.
      repeat split. exists o; reflexivity.
    + destruct Hf as [Hy Hn]. rewrite Hy. destruct l as [l|]; [|congruence]. simpl.
      repeat split; try discriminate. intros [o Ho]; discriminate.
Qed.

(** C7: in a cycle every call that composes or shows the debug view
    ([addWeighted], [resize], [imshow]) comes after the call of [run], and
    none comes before it. *)
Theorem actuation_before_display :
  forall (frame : Frame) (key : Z) (w : World) (l1 l2 : list Call) (c : Call),
    issued w (snd (the_cycle frame key w)) = l1 ++ c :: l2 ->
    is_display c = true ->
    existsb is_run l1 = true /\ existsb is_run l2 = false.
Proof.
  intros frame key w l1 l2 c E Hc.
  set (check := fun s : list Call * Call * list Call =>
                  let '(a, x, b) := s in
                  implb (is_display x) (existsb is_run a && negb (existsb is_run b))).
  assert (H : check (l1, c, l2) = true).
  { apply (forall_splits check (issued w (snd (the_cycle frame key w)))); [|exact E].
    pose proof (cycle_cases frame key w) as HC.
    destruct (the_cycle frame key w) as [r w']; simpl in *.
    inversion HC as [e Hy | ov e Hy Hl | fb ov l e Hf Hs | fb ov l cmd Hf Hs];
      subst; rewrite issued_app; try destruct fb; reflexivity. }
  simpl in H. rewrite Hc in H. simpl in H.
  apply andb_true_iff in H as [H1 H2].
  split; [exact H1 | apply negb_true_iff; exact H2].
Qed.

Lemma existsb_stop_poll (pre : list Call) (key : Z) :
  existsb is_stop pre = false ->
  (key =? ord_q)%Z = false ->
  existsb is_stop (pre ++ [WaitKey 1 key]) = false.
Proof.
  intros Hp Hk. rewrite existsb_app, Hp. simpl. rewrite Hk. reflexivity.
Qed.

Local Notation "'the_steering'" :=
  (steering_of shape run_yellow_segmentation_pipeline run_lane_detection_pipeline
               steering_command).
Local Notation "'returns'" :=
  (frame_returns shape run_yellow_segmentation_pipeline run_lane_detection_pipeline
                 steering_command).
Local Notation "'due'" :=
  (@run_for Frame Overlay Line Image shape run_yellow_segmentation_pipeline
            run_lane_detection_pipeline steering_command).

Lemma got_frames_app (l1 l2 : list Call) :
  got_frames (l1 ++ l2) = got_frames l1 ++ got_frames l2.
Proof.
  induction l1 as [|c l1 IH]; simpl; [reflexivity|].
  destruct c; simpl; rewrite ?IH; reflexivity.
Qed.

Lemma pairing_app (l1 l2 : list Call) (b : bool) :
  pairing b (l1 ++ l2) =
  match pairing b l1 with
  | Some b' => pairing b' l2
  | None => None
  end.
Proof.
  revert b. induction l1 as [|c l1 IH]; intros b; simpl; [reflexivity|].
  destruct c; try apply IH; destruct b; try reflexivity; apply IH.
Qed.

Lemma pairing_paired (l : list Call) (b : bool) :
  pairing b l = Some false -> paired b l = true.
Proof.
  revert b. induction l as [|c l IH]; intros b H; simpl in *.
  - inversion H. reflexivity.
  - destruct c; try (apply IH; exact H);
      destruct b; try discriminate; simpl; apply IH; exact H.
Qed.

(** One cycle, frame by frame: the frame got, its call of [run] if the
    calls into [toolbox] return, and what becomes of the controller. *)
Lemma cycle_frame (frame : Frame) (key : Z) (w : World) :
  exists t : list Call,
    calls (snd (the_cycle frame key w)) = calls w ++ t /\
    got_frames t = [frame] /\
    filter is_run t = due frame /\
    pairing false t = Some (negb (returns frame)) /\
    match fst (the_cycle frame key w) with
    | Return b =>
        b = (key =? ord_q)%Z /\
        exists angle,
          the_steering frame = Return angle /\
          vesc (snd (the_cycle frame key w)) = run (vesc w) angle THROTTLE
    | Raise e =>
        the_steering frame = Raise e /\
        vesc (snd (the_cycle frame key w)) = vesc w
    end.
Proof.
  pose proof (cycle_cases frame key w) as HC.
  destruct (the_cycle frame key w) as [r w']; simpl in *.
  unfold run_for, frame_returns, steering_of, estimate.
  inversion HC as [e Hy | ov e Hy Hl | fb ov l e Hf Hs | fb ov l cmd Hf Hs]; subst.
  - eexists; split; [reflexivity|]. rewrite Hy. repeat split.
  - eexists; split; [reflexivity|]. rewrite Hy, Hl. repeat split.
  - eexists; split; [reflexivity|]. destruct fb.
    + destruct Hf as [[o Hy] Hl]. rewrite Hy, Hl, Hs. repeat split.
    + destruct Hf as [Hy Hn]. rewrite Hy. destruct l as [l|]; [|congruence].
      rewrite Hs. repeat split.
  - eexists; split; [reflexivity|]. destruct fb.
    + destruct Hf as [[o Hy] Hl]. rewrite Hy, Hl, Hs.
      repeat split. exists cmd. split; reflexivity.
    + destruct Hf as [Hy Hn]. rewrite Hy. destruct l as [l|]; [|congruence].
      rewrite Hs. repeat split. exists cmd. split; reflexivity.
Qed.

(** The loop, frame by frame. *)
Lemma loop_frames (inputs : list (Frame * Z)) :
  forall w : World,
    exists t : list Call,
      calls (snd (the_loop inputs w)) = calls w ++ t /\
      filter is_run t = flat_map due (got_frames t) /\
      pairing false t =
        Some (existsb (fun frame => negb (returns frame)) (got_frames t)) /\
      List.length (written (v (vesc (snd (the_loop inputs w))))) =
      (List.length (written (v (vesc w))) + 2 * List.length (filter is_run t))%nat.
Proof.
  induction inputs as [|[frame key] rest IH]; intros w; simpl.
  - exists []. split; [symmetry; apply app_nil_r|]. simpl. repeat split. lia.
  - destruct (cycle_frame frame key w) as [tc [Hc [Hg [Hr [Hp Hres]]]]].
    destruct (the_cycle frame key w) as [[b|e] w1]; simpl in *.
    + destruct Hres as [Hb [angle [Hs Hv]]].
      assert (Hret : returns frame = true) by (unfold frame_returns; rewrite Hs; reflexivity).
      assert (Hdue : due frame = [VescRun angle THROTTLE])
        by (unfold run_for; rewrite Hs; reflexivity).
      rewrite Hret in Hp. simpl in Hp.
      assert (Hw1 : List.length (written (v (vesc w1))) =
                    (List.length (written (v (vesc w))) + 2)%nat)
        by (rewrite Hv; apply length_written_run).
      destruct b; simpl.
      * exists (tc ++ [DestroyAllWindows]).
        split; [rewrite Hc, <- app_assoc; reflexivity|].
        rewrite filter_app, got_frames_app, pairing_app, Hp, Hg, Hr. simpl.
        rewrite ?app_nil_r, Hret, Hdue. simpl. repeat split. lia.
      * destruct (IH w1) as [t [Hc2 [Hr2 [Hp2 Hw2]]]].
        exists (tc ++ t).
        split; [rewrite Hc2, Hc, <- app_assoc; reflexivity|].
        rewrite filter_app, got_frames_app, pairing_app, Hp, Hg, Hr, Hr2, Hp2.
        simpl. rewrite Hret, Hdue, ?app_nil_r. simpl. repeat split.
        rewrite Hw2, Hw1, <- Hr2. lia.
    + destruct Hres as [Hs Hv].
      assert (Hret : returns frame = false) by (unfold frame_returns; rewrite Hs; reflexivity).
      assert (Hdue : due frame = []) by (unfold run_for; rewrite Hs; reflexivity).
      exists tc. split; [exact Hc|].
      rewrite Hp, Hg, Hr, Hv. simpl. rewrite Hret, Hdue, ?app_nil_r. simpl.
      repeat split. lia.
Qed.

(** C5, as the code has it: every frame got from the queue on which the
    calls into [toolbox] return gets exactly one call of [run], with its own
    steering command and the fixed throttle, before the next frame is got;
    calls are never batched, and the transport receives two commands for
    each.  A frame on which a call into [toolbox] raises gets no call of
    [run] and is the last one got.  When all frames got return, frames and
    calls pair up and are as many. *)
Theorem run_per_frame :
  forall (inputs : list (Frame * Z)) (w : World),
    let w' := snd (the_loop inputs w) in
    let tr := issued w w' in
    let all_return :=
      frame_returns shape run_yellow_segmentation_pipeline
                    run_lane_detection_pipeline steering_command in
    let raised := existsb (fun frame => negb (all_return frame)) (got_frames tr) in
    filter is_run tr =
      flat_map (run_for shape run_yellow_segmentation_pipeline
                        run_lane_detection_pipeline steering_command)
               (got_frames tr) /\
    pairing false tr = Some raised /\
    List.length (written (v (vesc w'))) =
    (List.length (written (v (vesc w))) + 2 * List.length (filter is_run tr))%nat /\
    (raised = false ->
     paired false tr = true /\
     List.length (filter is_run tr) = List.length (filter is_get tr)).
Proof.
  intros inputs w w' tr all_return raised. subst raised all_return tr w'.
  destruct (loop_frames inputs w) as [t [Ht [Hr [Hp Hw]]]].
  assert (E : issued w (snd (the_loop inputs w)) = t).
  { destruct (snd (the_loop inputs w)) as [u cs]; simpl in Ht. subst cs.
    apply issued_app. }
  rewrite E. split; [exact Hr|]. split; [exact Hp|]. split; [exact Hw|].
  intros Hall. rewrite Hall in Hp.
  pose proof (pairing_paired t false Hp) as Hpd.
  split; [exact Hpd|]. rewrite (paired_counts t false Hpd). lia.
Qed.

(** After a poll that returned the code of [q] only [destroyAllWindows]
    is called, and the loop has terminated. *)
Lemma loop_stop (inputs : list (Frame * Z)) :
  forall w : World,
    exists t : list Call,
      calls (snd (the_loop inputs w)) = calls w ++ t /\
      forall l1 c l2,
        t = l1 ++ c :: l2 -> is_stop c = true ->
        fst (the_loop inputs w) = Terminated /\ l2 = [DestroyAllWindows].
Proof.
  induction inputs as [|[frame key] rest IH]; intros w; simpl.
  - exists []. split; [symmetry; apply app_nil_r|].
    intros l1 c l2 E. destruct l1; discriminate.
  - destruct (cycle_trace frame key w) as [pre [Hpre HC]].
    destruct (the_cycle frame key w) as [[b|e] w']; simpl in *.
    + destruct HC as [Hc [Hb _]].
      destruct b; simpl.
      * exists (pre ++ [WaitKey 1 key; DestroyAllWindows]).
        split; [rewrite Hc, <- !app_assoc; reflexivity|].
        intros l1 c l2 E Hs. split; [reflexivity|].
        destruct (app_split_right is_stop _ _ _ _ _ Hpre Hs E) as [l1' [_ E']].
        destruct l1' as [|x [|y l1']]; simpl in E'; inversion E'; subst.
        -- reflexivity.
        -- discriminate.
        -- destruct l1'; discriminate.
      * destruct (IH w') as [t [Ht Hrest]].
        exists ((pre ++ [WaitKey 1 key]) ++ t).
        split; [rewrite Ht, Hc, <- !app_assoc; reflexivity|].
        intros l1 c l2 E Hs.
        destruct (app_split_right is_stop _ _ _ _ _
                    (existsb_stop_poll pre key Hpre (eq_sym Hb)) Hs E)
          as [l1' [_ E']].
        exact (Hrest l1' c l2 E' Hs).
    + destruct HC as [Hc _]. exists pre. split; [exact Hc|].
      intros l1 c l2 E Hs. rewrite <- (app_nil_r pre) in E.
      destruct (app_split_right is_stop _ _ _ _ _ Hpre Hs E) as [l1' [_ E']].
      destruct l1'; discriminate.
Qed.

(** C6: once [cv2.waitKey] has returned the code of [q] in some cycle, the
    loop makes no further call but [cv2.destroyAllWindows()], so there is no
    call of [run] in any later cycle, and the script has terminated. *)
Theorem stop_ends_loop :
  forall (inputs : list (Frame * Z)) (w : World) (l1 l2 : list Call) (c : Call),
    issued w (snd (the_loop inputs w)) = l1 ++ c :: l2 ->
    is_stop c = true ->
    fst (the_loop inputs w) = Terminated /\
    l2 = [DestroyAllWindows] /\
    existsb is_run l2 = false /\
    existsb is_get l2 = false.
Proof.
  intros inputs w l1 l2 c E Hs.
  destruct (loop_stop inputs w) as [t [Ht H]].
  assert (E' : issued w (snd (the_loop inputs w)) = t).
  { destruct (snd (the_loop inputs w)) as [u cs]; simpl in Ht. subst cs.
    apply issued_app. }
  rewrite E' in E. destruct (H l1 c l2 E Hs) as [H1 H2].
  subst l2. repeat split; assumption || reflexivity.
Qed.

End MainProperties.

(** Against C5 as it was claimed: the lane detector finds no line on frame
    5 and [toolbox.steering_command] raises on the missing line; two frames
    have been got from the queue and [run] has been called once. *)
Lemma one_run_per_frame_counterexample :
  let tr := issued demo_world
              (snd (demo_streaming_blind [(0%nat, (-1)%Z); (5%nat, (-1)%Z)] demo_world)) in
  List.length (filter is_get tr) = 2%nat /\
  List.length (filter is_run tr) = 1%nat /\
  paired false tr = false.
Proof.
  repeat split.
Qed.

Lemma stop_ends_loop_witness :
  issued demo_world (snd (demo_streaming [(0%nat, 113%Z); (1%nat, (-1)%Z)] demo_world)) =
  demo_before_stop ++ WaitKey 1 113 :: [DestroyAllWindows] /\
  fst (demo_streaming [(0%nat, 113%Z); (1%nat, (-1)%Z)] demo_world) = Terminated /\
  [DestroyAllWindows] = [@DestroyAllWindows nat unit Z nat] /\
  existsb is_run [@DestroyAllWindows nat unit Z nat] = false /\
  existsb is_get [@DestroyAllWindows nat unit Z nat] = false.
Proof.
  split; [reflexivity|].
  apply (stop_ends_loop demo_shape demo_yellow demo_lane demo_steering
           demo_addWeighted demo_resize [(0%nat, 113%Z); (1%nat, (-1)%Z)]
           demo_world demo_before_stop [DestroyAllWindows] (WaitKey 1 113));
    reflexivity.
Defined.

Lemma actuation_before_display_witness :
  issued demo_world (snd (demo_cycle 1%nat (-1)%Z demo_world)) =
  demo_before_imshow ++ Imshow "frame" 1%nat :: [WaitKey 1 (-1)] /\
  existsb is_run demo_before_imshow = true /\
  existsb is_run [@WaitKey nat unit Z nat 1 (-1)] = false.
Proof.
  split; [reflexivity|].
  apply (actuation_before_display demo_shape demo_yellow demo_lane demo_steering
           demo_addWeighted demo_resize 1%nat (-1)%Z demo_world
           demo_before_imshow [WaitKey 1 (-1)] (Imshow "frame" 1%nat));
    reflexivity.
Defined.

(** * More on [VESC.__init__] *)

(** When [import pyvesc] raises, [__init__] raises the same exception again,
    whatever [percent] and the port are: the assertion is not reached and
    the transport is not opened.  For an [Exception] it first prints it and
    how to install the library, and sleeps a second; any other exception
    (an interrupt, an exit) passes with nothing printed and no sleep. *)
Theorem VESC_init_import_fails :
  forall (E : env) (port : string) (pct : float) (sensor hb : bool)
         (baud : Z) (tmo scale offset : float) (err : exn),
    import_pyvesc E = Some err ->
    VESC_init E port pct sensor hb baud tmo scale offset [] =
    (Raise err,
     CallImport "pyvesc" ::
     if is_Exception err then
       [CallPrint [PStr (repeat_str 4 LF); PExn err; PStr LF];
        CallPrint [PStr "please use the following command to import pyvesc so that you can also set"];
        CallPrint [PStr "the servo position:"];
        CallPrint [PStr "pip install git+https://github.com/LiamBindle/PyVESC.git@master"];
        CallPrint [PStr (repeat_str 3 LF)];
        CallSleep 1]
     else []).
Proof.
  intros E port pct sensor hb baud tmo scale offset err Hi.
  unfold VESC_init, bind, do_import, try_except, emit, ret, raise.
  rewrite Hi. simpl. destruct (is_Exception err); reflexivity.
Qed.

Lemma VESC_init_import_fails_witness :
  fst (VESC_init env_no_pyvesc "/dev/ttyACM0" 1.3%float false true 115200
                 0.05%float 1.0%float 0.5%float []) =
  Raise (mkExn "ModuleNotFoundError" "No module named 'pyvesc'") /\
  VESC_init env_import_interrupted "/dev/ttyACM0" 0.2%float false true 115200
            0.05%float 1.0%float 0.5%float [] =
  (Raise interrupted, [CallImport "pyvesc"]).
Proof.
  split.
  - exact (f_equal fst
             (VESC_init_import_fails env_no_pyvesc "/dev/ttyACM0" 1.3%float
                false true 115200%Z 0.05%float 1.0%float 0.5%float
                (mkExn "ModuleNotFoundError" "No module named 'pyvesc'") eq_refl)).
  - exact (VESC_init_import_fails env_import_interrupted "/dev/ttyACM0" 0.2%float
             false true 115200%Z 0.05%float 1.0%float 0.5%float
             interrupted eq_refl).
Defined.

Lemma VESC_init_result (E : env) (port : string) (pct : float) (sensor hb : bool)
    (baud : Z) (tmo scale offset : float) :
  fst (VESC_init E port pct sensor hb baud tmo scale offset []) =
  match import_pyvesc E with
  | Some err => Raise err
  | None =>
      if percent_ok pct then
        match open_port E port with
        | Some err => Raise err
        | None => Return (mkVESC scale offset pct
                                 (mkTransport port sensor hb baud tmo []))
        end
      else Raise AssertionError
  end.
Proof.
  unfold VESC_init, bind, do_import, do_open, try_except, emit, ret, raise.
  destruct (import_pyvesc E) as [e|]; simpl;
    [destruct (is_Exception e); reflexivity|].
  destruct (percent_ok pct); simpl; [|reflexivity].
  destruct (open_port E port) as [e|]; simpl;
    [destruct (is_Exception e); reflexivity | reflexivity].
Qed.

(** [__init__] returns exactly when pyvesc imports, [percent] is within
    [-1, 1] and the port opens; the controller it returns holds the scale,
    the offset and the [percent] it was given, and a transport opened with
    the given arguments to which nothing has been written. *)
Theorem VESC_init_returns_iff :
  forall (E : env) (port : string) (pct : float) (sensor hb : bool)
         (baud : Z) (tmo scale offset : float) (self : VESC),
    fst (VESC_init E port pct sensor hb baud tmo scale offset []) = Return self <->
    import_pyvesc E = None /\
    percent_ok pct = true /\
    open_port E port = None /\
    self = mkVESC scale offset pct (mkTransport port sensor hb baud tmo []).
Proof.
  intros E port pct sensor hb baud tmo scale offset self.
  rewrite VESC_init_result.
  destruct (import_pyvesc E) as [e|]; [split; [discriminate | intros [H _]; discriminate]|].
  destruct (percent_ok pct); [|split; [discriminate | intros [_ [H _]]; discriminate]].
  destruct (open_port E port) as [e|];
    [split; [discriminate | intros [_ [_ [H _]]]; discriminate]|].
  split.
  - intros H. inversion H. repeat split.
  - intros [_ [_ [_ ->]]]. reflexivity.
Qed.

(** The exception [__init__] raises is the first that applies of: the one of
    [import pyvesc]; the assertion's, when [percent] is out of range; the
    one of opening the transport. *)
Theorem VESC_init_error_order :
  forall (E : env) (port : string) (pct : float) (sensor hb : bool)
         (baud : Z) (tmo scale offset : float) (e : exn),
    fst (VESC_init E port pct sensor hb baud tmo scale offset []) = Raise e ->
    import_pyvesc E = Some e \/
    (import_pyvesc E = None /\ percent_ok pct = false /\ e = AssertionError) \/
    (import_pyvesc E = None /\ percent_ok pct = true /\ open_port E port = Some e).
Proof.
  intros E port pct sensor hb baud tmo scale offset e.
  rewrite VESC_init_result.
  destruct (import_pyvesc E) as [e1|].
  - intros H. inversion H. left. reflexivity.
  - destruct (percent_ok pct).
    + destruct (open_port E port) as [e2|]; intros H; inversion H.
      right. right. repeat split.
    + intros H. inversion H. right. left. repeat split.
Qed.

Lemma VESC_init_error_order_witness :
  import_pyvesc env_no_pyvesc =
    Some (mkExn "ModuleNotFoundError" "No module named 'pyvesc'") \/
  (import_pyvesc env_no_pyvesc = None /\ percent_ok 1.3%float = false /\
   mkExn "ModuleNotFoundError" "No module named 'pyvesc'" = AssertionError) \/
  (import_pyvesc env_no_pyvesc = None /\ percent_ok 1.3%float = true /\
   open_port env_no_pyvesc "/dev/ttyACM0" =
     Some (mkExn "ModuleNotFoundError" "No module named 'pyvesc'")).
Proof.
  exact (VESC_init_error_order env_no_pyvesc "/dev/ttyACM0" 1.3%float
           false true 115200%Z 0.05%float 1.0%float 0.5%float
           (mkExn "ModuleNotFoundError" "No module named 'pyvesc'") eq_refl).
Defined.

(** The transport is opened once when the import and the assertion pass, and
    not at all otherwise: never before [percent] has been checked, never a
    second time after a failure. *)
Theorem VESC_init_open_count :
  forall (E : env) (port : string) (pct : float) (sensor hb : bool)
         (baud : Z) (tmo scale offset : float),
    count_open (snd (VESC_init E port pct sensor hb baud tmo scale offset [])) =
    match import_pyvesc E with
    | Some _ => 0%nat
    | None => if percent_ok pct then 1%nat else 0%nat
    end.
Proof.
  intros E port pct sensor hb baud tmo scale offset.
  unfold VESC_init, bind, do_import, do_open, try_except, emit, ret, raise.
  destruct (import_pyvesc E) as [e|]; simpl;
    [destruct (is_Exception e); reflexivity|].
  destruct (percent_ok pct); simpl; [|reflexivity].
  destruct (open_port E port) as [e|]; simpl;
    [destruct (is_Exception e); reflexivity | reflexivity].
Qed.

(** * More on the power command *)

Section PowerRange.

Local Open Scope Z_scope.

(** The sign given to [binary_round_aux] is the sign of what it returns. *)
Lemma binary_round_aux_opp (s : bool) (m e : Z) (l : location) :
  binary_round_aux prec emax (negb s) m e l =
  SFopp (binary_round_aux prec emax s m e l).
Proof.
  unfold binary_round_aux.
  destruct (shr_fexp prec emax m e l) as [mrs' e'].
  destruct (shr_fexp prec emax _ e' loc_Exact) as [mrs'' e''].
  destruct (shr_m mrs''); try reflexivity.
  destruct (e'' <=? emax - prec); reflexivity.
Qed.

Lemma SFmul_opp_r (x y : spec_float) :
  SFmul prec emax x (SFopp y) = SFopp (SFmul prec emax x y).
Proof.
  destruct x as [sx|sx| |sx mx ex], y as [sy|sy| |sy my ey]; simpl;
    try reflexivity;
    try (destruct sx, sy; reflexivity).
  rewrite <- binary_round_aux_opp. destruct sx, sy; reflexivity.
Qed.

(** Multiplying by the opposite gives the opposite, rounding included. *)
Lemma mul_opp_r (t p : float) : (t * (- p) = - (t * p))%float.
Proof.
  apply Prim2SF_inj.
  rewrite opp_spec, !mul_spec, opp_spec.
  apply SFmul_opp_r.
Qed.

(** The product of two numbers between -1 and 1 is between -1 and 1. *)
Lemma SFmul_le_one (x y : spec_float) :
  valid_binary x = true ->
  valid_binary y = true ->
  SFleb x SF_one = true -> SFleb SF_minus_one x = true ->
  SFleb y SF_one = true -> SFleb SF_minus_one y = true ->
  SFleb (SFmul prec emax x y) SF_one = true /\
  SFleb SF_minus_one (SFmul prec emax x y) = true.
Proof.
  intros Vx Vy X1 X2 Y1 Y2.
  destruct x as [sx|sx| |sx mx ex]; try discriminate;
    try (destruct sx; discriminate);
    destruct y as [sy|sy| |sy my ey]; try discriminate;
    try (destruct sy; discriminate);
    try (split; reflexivity).
  remember 2148 as K eqn:EK.
  remember 1074 as K0 eqn:EK0.
  destruct (finite_le_one sx mx ex K0 ltac:(lia) Vx X1 X2) as [Hex Hx].
  destruct (finite_le_one sy my ey K0 ltac:(lia) Vy Y1 Y2) as [Hey Hy].
  destruct (valid_finite sx mx ex Vx) as [_ [_ [Lx _]]].
  destruct (valid_finite sy my ey Vy) as [_ [_ [Ly _]]].
  assert (PX : 0 < 2 ^ (ex + K0)) by (apply Z.pow_pos_nonneg; lia).
  assert (PY : 0 < 2 ^ (ey + K0)) by (apply Z.pow_pos_nonneg; lia).
  assert (P0 : 0 < 2 ^ K0) by (apply Z.pow_pos_nonneg; lia).
  assert (S1 : 2 ^ (ex + ey + K) = 2 ^ (ex + K0) * 2 ^ (ey + K0)).
  { rewrite <- Z.pow_add_r by lia. f_equal. lia. }
  assert (S2 : 2 ^ (-52 + K) = 2 ^ K0 * 2 ^ (K0 - 52)).
  { rewrite <- Z.pow_add_r by lia. f_equal. lia. }
  assert (S3 : 2 ^ K0 = 2 ^ 52 * 2 ^ (K0 - 52)).
  { rewrite <- Z.pow_add_r by lia. f_equal. lia. }
  assert (P3 : 0 < 2 ^ (K0 - 52)) by (apply Z.pow_pos_nonneg; lia).
  assert (Hle : Zpos (mx * my) * 2 ^ (ex + ey + K) <=
                Zpos 4503599627370496 * 2 ^ (-52 + K)).
  { rewrite S1, S2, Pos2Z.inj_mul.
    change (Zpos 4503599627370496) with (2 ^ 52).
    assert (A : Zpos mx * 2 ^ (ex + K0) * (Zpos my * 2 ^ (ey + K0)) <= 2 ^ K0 * 2 ^ K0).
    { apply Z.mul_le_mono_nonneg; lia. }
    replace (2 ^ 52 * (2 ^ K0 * 2 ^ (K0 - 52)))
      with (2 ^ K0 * (2 ^ 52 * 2 ^ (K0 - 52))) by ring.
    rewrite <- S3.
    replace (Zpos mx * Zpos my * (2 ^ (ex + K0) * 2 ^ (ey + K0)))
      with (Zpos mx * 2 ^ (ex + K0) * (Zpos my * 2 ^ (ey + K0))) by ring.
    exact A. }
  pose proof (binary_round_aux_le (xorb sx sy) (mx * my) 4503599627370496
                (ex + ey) (-52) K ltac:(lia) ltac:(lia) Hle eq_refl ltac:(unfold emax, prec; lia))
    as R.
  cbn [SFmul].
  destruct (binary_round_aux prec emax (xorb sx sy) (Zpos (mx * my)) (ex + ey) loc_Exact)
    as [s|s| |s m e]; try contradiction; [split; reflexivity|].
  assert (C : (e ?= -52) = Lt \/
              (e = -52 /\ Pos.compare m 4503599627370496 <> Gt)).
  { destruct R as [Hlt | [-> Hm]].
    - left. apply Z.compare_lt_iff. exact Hlt.
    - right. split; [reflexivity|]. intros G.
      apply Pos.compare_gt_iff in G. apply Pos2Z.pos_lt_pos in G. lia. }
  unfold SFleb, SF_one, SF_minus_one, SFcompare.
  destruct s.
  - split; [reflexivity|].
    destruct C as [C | [-> C]].
    + rewrite Z.compare_antisym, C. reflexivity.
    + rewrite Z.compare_refl, Pos.compare_cont_spec.
      rewrite Pos.compare_antisym.
      destruct (Pos.compare m 4503599627370496); try reflexivity. congruence.
  - split; [|reflexivity].
    destruct C as [C | [-> C]].
    + rewrite C. reflexivity.
    + rewrite Z.compare_refl, Pos.compare_cont_spec.
      destruct (Pos.compare m 4503599627370496); try reflexivity. congruence.
Qed.

Lemma mul_in_range (t p : float) :
  (-1 <=? t)%float = true -> (t <=? 1)%float = true ->
  (-1 <=? p)%float = true -> (p <=? 1)%float = true ->
  (-1 <=? t * p)%float = true /\ (t * p <=? 1)%float = true.
Proof.
  rewrite !leb_spec, mul_spec.
  intros T1 T2 P1 P2.
  destruct (SFmul_le_one (Prim2SF t) (Prim2SF p)
              (Prim2SF_valid t) (Prim2SF_valid p) T2 T1 P2 P1) as [A B].
  split; assumption.
Qed.

End PowerRange.

(** A controller that [__init__] returned sends, for a throttle between -1
    and 1, a duty cycle between -1 and 1: the assertion on [percent] keeps
    the power command in the range of the motor controller. *)
Theorem constructed_power_in_range :
  forall (E : env) (port : string) (pct : float) (sensor hb : bool)
         (baud : Z) (tmo scale offset : float) (self : VESC)
         (angle throttle : float),
    fst (VESC_init E port pct sensor hb baud tmo scale offset []) = Return self ->
    (-1 <=? throttle)%float = true ->
    (throttle <=? 1)%float = true ->
    exists power : float,
      power_commands (sent self (run self angle throttle)) = [power] /\
      (-1 <=? power)%float = true /\ (power <=? 1)%float = true.
Proof.
  intros E port pct sensor hb baud tmo scale offset self angle throttle Hr T1 T2.
  rewrite VESC_init_result in Hr.
  destruct (import_pyvesc E) as [e|]; [discriminate|].
  destruct (percent_ok pct) eqn:Hp; [|discriminate].
  destruct (open_port E port) as [e|]; [discriminate|].
  inversion Hr; subst self; clear Hr.
  apply andb_true_iff in Hp as [P2 P1].
  exists (throttle * pct)%float. split.
  - rewrite sent_run. reflexivity.
  - apply mul_in_range; assumption.
Qed.

Lemma constructed_power_in_range_witness :
  exists power : float,
    power_commands (sent vesc0 (run vesc0 0.5%float THROTTLE)) = [power] /\
    (-1 <=? power)%float = true /\ (power <=? 1)%float = true.
Proof.
  exact (constructed_power_in_range env_ok "/dev/ttyACM0" 0.2%float false true
           115200%Z 0.05%float 1.0%float 0.5%float vesc0 0.5%float THROTTLE
           eq_refl eq_refl eq_refl).
Defined.

(** A negative [percent] flips the direction of the motor: a controller with
    the opposite [percent] sends the opposite duty cycle for the same
    throttle, and the same servo position. *)
Theorem negative_percent_flips_power :
  forall (scale offset pct : float) (t : pyvesc_VESC) (angle throttle : float),
    let forward := mkVESC scale offset pct t in
    let backward := mkVESC scale offset (- pct)%float t in
    power_commands (sent backward (run backward angle throttle)) =
    map PrimFloat.opp (power_commands (sent forward (run forward angle throttle))) /\
    servo_commands (sent backward (run backward angle throttle)) =
    servo_commands (sent forward (run forward angle throttle)).
Proof.
  intros scale offset pct t angle throttle forward backward.
  subst forward backward. rewrite !sent_run. simpl.
  rewrite mul_opp_r. split; reflexivity.
Qed.

(** * More on the loop *)

Lemma run_same_config (self : VESC) (angle throttle : float) :
  same_config self (run self angle throttle).
Proof. unfold same_config; simpl. repeat split. Qed.

Lemma same_config_refl (a : VESC) : same_config a a.
Proof. unfold same_config. repeat split. Qed.

Lemma same_config_trans (a b c : VESC) :
  same_config a b -> same_config b c -> same_config a c.
Proof.
  unfold same_config.
  intros [A1 [A2 [A3 [A4 [A5 [A6 [A7 A8]]]]]]] [B1 [B2 [B3 [B4 [B5 [B6 [B7 B8]]]]]]].
  repeat split; congruence.
Qed.

Lemma commands_of_same_config {Frame Overlay Line Image} (a b : VESC)
    (l : list (call Frame Overlay Line Image)) :
  same_config a b -> flat_map (commands_of b) l = flat_map (commands_of a) l.
Proof.
  intros [S1 [S2 [S3 _]]]. apply flat_map_ext. intros c.
  destruct c; simpl; try reflexivity. rewrite S1, S2, S3. reflexivity.
Qed.

(** The duty cycles among the commands of calls of [run] with the fixed
    throttle are all the same. *)
Lemma power_commands_fixed {Frame Overlay Line Image} (self : VESC)
    (l : list (call Frame Overlay Line Image)) :
  Forall throttle_fixed l ->
  Forall (fun x => x = (THROTTLE * percent self)%float)
         (power_commands (flat_map (commands_of self) l)).
Proof.
  induction 1 as [|c l Hc _ IH]; simpl; [constructor|].
  destruct c; simpl in *; try exact IH.
  constructor; [rewrite Hc; reflexivity | exact IH].
Qed.

Section LoopEffects.

Context {Frame Overlay Line Image : Type}.
Variable shape : Frame -> Z * Z * Z.
Variable run_yellow_segmentation_pipeline : Frame -> result (Overlay * option Line).
Variable run_lane_detection_pipeline : Frame -> result (Overlay * option Line).
Variable steering_command : option Line -> Z -> result float.
Variable addWeighted : Frame -> float -> Overlay -> float -> float -> Image.
Variable resize : Image -> Z * Z -> Image.

Local Notation "'World'" := (world Frame Overlay Line Image).
Local Notation "'Call'" := (call Frame Overlay Line Image).
Local Notation "'the_cycle'" :=
  (cycle shape run_yellow_segmentation_pipeline run_lane_detection_pipeline
         steering_command addWeighted resize).
Local Notation "'the_loop'" :=
  (streaming shape run_yellow_segmentation_pipeline run_lane_detection_pipeline
             steering_command addWeighted resize).
Local Notation "'raised_by' frame e" :=
  (run_yellow_segmentation_pipeline frame = Raise e \/
   run_lane_detection_pipeline frame = Raise e \/
   exists steering_line,
     steering_command steering_line (snd (fst (shape frame))) = Raise e)
  (at level 10, frame at level 9, e at level 9).

(** What one cycle does to the trace, the controller and the transport. *)
Lemma cycle_effect (frame : Frame) (key : Z) (w : World) :
  exists t : list Call,
    calls (snd (the_cycle frame key w)) = calls w ++ t /\
    written (v (vesc (snd (the_cycle frame key w)))) =
      written (v (vesc w)) ++ flat_map (commands_of (vesc w)) t /\
    same_config (vesc w) (vesc (snd (the_cycle frame key w))) /\
    Forall throttle_fixed t /\
    existsb is_destroy t = false /\
    List.length (filter is_get t) = 1%nat /\
    match fst (the_cycle frame key w) with
    | Return b =>
        b = (key =? ord_q)%Z /\
        existsb is_stop t = b /\
        List.length (filter is_run t) = 1%nat /\
        exists angle, vesc (snd (the_cycle frame key w)) = run (vesc w) angle THROTTLE
    | Raise e =>
        existsb is_stop t = false /\
        List.length (filter is_run t) = 0%nat /\
        raised_by frame e
    end.
Proof.
  pose proof (cycle_cases shape run_yellow_segmentation_pipeline
                run_lane_detection_pipeline steering_command addWeighted resize
                frame key w) as HC.
  destruct (the_cycle frame key w) as [r w']; simpl in *.
  inversion HC as [e Hy | ov e Hy Hl | fb ov l e Hf Hs | fb ov l cmd Hf Hs]; subst; simpl.
  - eexists; split; [reflexivity|]. simpl.
    repeat split; try reflexivity; try apply same_config_refl; try (symmetry; apply app_nil_r).
    + repeat constructor.
    + left; exact Hy.
  - eexists; split; [reflexivity|]. simpl.
    repeat split; try reflexivity; try apply same_config_refl; try (symmetry; apply app_nil_r).
    + repeat constructor.
    + right; left; exact Hl.
  - eexists; split; [reflexivity|].
    destruct fb; simpl;
      (repeat split; try reflexivity; try apply same_config_refl;
       try (symmetry; apply app_nil_r);
       [repeat constructor | right; right; exists l; exact Hs]).
  - eexists; split; [reflexivity|].
    destruct fb; simpl;
      (repeat split; try reflexivity; try apply run_same_config;
       try apply written_run; try apply orb_false_r;
       [repeat constructor | exists cmd; reflexivity]).
Qed.

(** What the loop does, by how it ends. *)
Lemma loop_effect (inputs : list (Frame * Z)) :
  forall w : World,
    exists t : list Call,
      calls (snd (the_loop inputs w)) = calls w ++ t /\
      written (v (vesc (snd (the_loop inputs w)))) =
        written (v (vesc w)) ++ flat_map (commands_of (vesc w)) t /\
      same_config (vesc w) (vesc (snd (the_loop inputs w))) /\
      Forall throttle_fixed t /\
      match fst (the_loop inputs w) with
      | Streaming =>
          filter is_destroy t = [] /\
          existsb is_stop t = false /\
          List.length (filter is_get t) = List.length inputs /\
          List.length (filter is_run t) = List.length inputs
      | Terminated =>
          filter is_destroy t = [DestroyAllWindows] /\
          (exists t0, t = t0 ++ [DestroyAllWindows]) /\
          exists (l : list command) (angle : float),
            written (v (vesc (snd (the_loop inputs w)))) =
            l ++ [set_servo (angle * steering_scale (vesc w) + steering_offset (vesc w))%float;
                  set_duty_cycle (THROTTLE * percent (vesc w))%float]
      | Aborted e =>
          filter is_destroy t = [] /\
          List.length (filter is_get t) = S (List.length (filter is_run t)) /\
          exists frame, In frame (map fst inputs) /\ raised_by frame e
      end.
Proof.
  induction inputs as [|[frame key] rest IH]; intros w; simpl.
  - exists []. simpl. rewrite !app_nil_r.
    repeat split; try reflexivity; try apply same_config_refl. constructor.
  - destruct (cycle_effect frame key w) as [tc [Hc [Hw [Hs [Ht [Hd [Hg Hr]]]]]]].
    assert (Hd' : filter is_destroy tc = []).
    { clear - Hd. induction tc as [|c tc IHt]; simpl in *; [reflexivity|].
      apply orb_false_iff in Hd as [H1 H2]. rewrite H1. apply IHt. exact H2. }
    destruct (the_cycle frame key w) as [[b|e] w1]; simpl in *.
    + destruct Hr as [Hb [Hstop [Hrun [angle Hv]]]].
      destruct b; simpl.
      * exists (tc ++ [DestroyAllWindows]).
        split; [rewrite Hc, <- app_assoc; reflexivity|].
        split; [rewrite flat_map_app, app_nil_r; exact Hw|].
        split; [exact Hs|].
        split; [apply Forall_app; split; [exact Ht | repeat constructor]|].
        split; [rewrite filter_app, Hd'; reflexivity|].
        split; [exists tc; reflexivity|].
        exists (written (v (vesc w))), angle. rewrite Hv. apply written_run.
      * destruct (IH w1) as [t [Hc2 [Hw2 [Hs2 [Ht2 Hst]]]]].
        exists (tc ++ t).
        split; [rewrite Hc2, Hc, <- app_assoc; reflexivity|].
        split.
        { rewrite Hw2, Hw, flat_map_app, <- app_assoc.
          rewrite (commands_of_same_config (vesc w) (vesc w1) t Hs). reflexivity. }
        split; [exact (same_config_trans _ _ _ Hs Hs2)|].
        split; [apply Forall_app; split; assumption|].
        destruct Hs as [S1 [S2 [S3 _]]].
        destruct (fst (the_loop rest w1)).
        -- destruct Hst as [A [B [C D]]].
           repeat split.
           ++ rewrite filter_app, Hd', A. reflexivity.
           ++ rewrite existsb_app, Hstop, B. reflexivity.
           ++ rewrite filter_app, length_app, Hg, C. reflexivity.
           ++ rewrite filter_app, length_app, Hrun, D. reflexivity.
        -- destruct Hst as [A [[t0 B] [l [a C]]]].
           split; [rewrite filter_app, Hd', A; reflexivity|].
           split; [exists (tc ++ t0); rewrite B, app_assoc; reflexivity|].
           exists l, a. rewrite S1, S2, S3. exact C.
        -- destruct Hst as [A [B [fr [Hin Hfr]]]].
           split; [rewrite filter_app, Hd', A; reflexivity|].
           split; [rewrite !filter_app, !length_app, Hg, Hrun, B; reflexivity|].
           exists fr. split; [right; exact Hin | exact Hfr].
    + destruct Hr as [Hstop [Hrun Hby]].
      exists tc.
      split; [exact Hc|]. split; [exact Hw|]. split; [exact Hs|]. split; [exact Ht|].
      split; [exact Hd'|]. split; [rewrite Hg, Hrun; reflexivity|].
      exists frame. split; [left; reflexivity | exact Hby].
Qed.

Lemma issued_of_calls (w w' : World) (t : list Call) :
  calls w' = calls w ++ t -> issued w w' = t.
Proof.
  intros H. unfold issued. rewrite H. apply skipn_length_app.
Qed.

(** Whatever the frames, the keys and the failures, the transport receives
    the two commands of each call of [run] the loop made, in the order of
    the calls, and nothing else. *)
Theorem loop_transport_log :
  forall (inputs : list (Frame * Z)) (w : World),
    let w' := snd (the_loop inputs w) in
    written (v (vesc w')) =
    written (v (vesc w)) ++ flat_map (commands_of (vesc w)) (issued w w').
Proof.
  intros inputs w w'. subst w'.
  destruct (loop_effect inputs w) as [t [Hc [Hw _]]].
  rewrite (issued_of_calls _ _ _ Hc). exact Hw.
Qed.

(** The loop never changes the controller's scale, offset or [percent], nor
    the parameters of its transport. *)
Theorem loop_keeps_configuration :
  forall (inputs : list (Frame * Z)) (w : World),
    let self := vesc w in
    let self' :=
      vesc (snd (streaming shape run_yellow_segmentation_pipeline
                           run_lane_detection_pipeline steering_command
                           addWeighted resize inputs w)) in
    steering_scale self' = steering_scale self /\
    steering_offset self' = steering_offset self /\
    percent self' = percent self /\
    serial_port (v self') = serial_port (v self) /\
    has_sensor (v self') = has_sensor (v self) /\
    start_heartbeat (v self') = start_heartbeat (v self) /\
    baudrate (v self') = baudrate (v self) /\
    timeout (v self') = timeout (v self).
Proof.
  intros inputs w self self'. subst self self'.
  destruct (loop_effect inputs w) as [t [_ [_ [Hs _]]]].
  destruct Hs as [S1 [S2 [S3 [S4 [S5 [S6 [S7 S8]]]]]]].
  repeat split; symmetry; assumption.
Qed.

(** Every duty cycle the loop sends is [THROTTLE * percent]: the throttle
    does not depend on the frame. *)
Theorem loop_power_fixed :
  forall (inputs : list (Frame * Z)) (w : World),
    let w' := snd (the_loop inputs w) in
    Forall (fun power => power = (THROTTLE * percent (vesc w))%float)
           (power_commands (sent (vesc w) (vesc w'))).
Proof.
  intros inputs w w'. subst w'.
  destruct (loop_effect inputs w) as [t [_ [Hw [_ [Ht _]]]]].
  unfold sent. rewrite Hw, skipn_length_app.
  apply power_commands_fixed. exact Ht.
Qed.

Local Notation "'the_steering'" :=
  (steering_of shape run_yellow_segmentation_pipeline run_lane_detection_pipeline
               steering_command).
Local Notation "'returns'" :=
  (frame_returns shape run_yellow_segmentation_pipeline run_lane_detection_pipeline
                 steering_command).

(** A frame on which the calls into [toolbox] return, with a key that is not
    [q]. *)
Local Notation "'goes_on' i" :=
  (returns (fst i) = true /\ snd i <> ord_q) (at level 10, i at level 9).

Lemma loop_quit (inputs : list (Frame * Z)) :
  forall w : World,
    fst (the_loop inputs w) = Terminated ->
    exists (t : list Call) (frames : list Frame) (frame : Frame)
           (angle : float) (l : list command),
      calls (snd (the_loop inputs w)) = calls w ++ t /\
      got_frames t = frames ++ [frame] /\
      the_steering frame = Return angle /\
      written (v (vesc (snd (the_loop inputs w)))) =
      l ++ [set_servo (angle * steering_scale (vesc w) + steering_offset (vesc w))%float;
            set_duty_cycle (THROTTLE * percent (vesc w))%float].
Proof.
  induction inputs as [|[frame key] rest IH]; intros w; simpl; [discriminate|].
  destruct (cycle_frame shape run_yellow_segmentation_pipeline
              run_lane_detection_pipeline steering_command addWeighted resize
              frame key w) as [tc [Hc [Hg [_ [_ Hres]]]]].
  destruct (the_cycle frame key w) as [[b|e] w1]; simpl in *; [|discriminate].
  destruct Hres as [_ [angle [Hs Hv]]].
  destruct b; simpl.
  - intros _. exists (tc ++ [DestroyAllWindows]), [], frame, angle, (written (v (vesc w))).
    split; [rewrite Hc, <- app_assoc; reflexivity|].
    split; [rewrite got_frames_app, Hg; reflexivity|].
    split; [exact Hs|]. rewrite Hv. apply written_run.
  - intros H. destruct (IH w1 H) as [t [frames [fr [a [l [Hc2 [Hg2 [Hs2 Hw2]]]]]]]].
    exists (tc ++ t), (frame :: frames), fr, a, l.
    split; [rewrite Hc2, Hc, <- app_assoc; reflexivity|].
    split; [rewrite got_frames_app, Hg, Hg2; reflexivity|].
    split; [exact Hs2|]. rewrite Hw2, Hv. reflexivity.
Qed.

(** When the loop ends by [q], the last commands the transport has received
    are those of the last frame got: the servo position for the steering
    command of that frame and the duty cycle [THROTTLE * percent].  The
    script sends nothing to stop the motor before it ends. *)
Theorem quit_leaves_last_command :
  forall (inputs : list (Frame * Z)) (w : World),
    fst (the_loop inputs w) = Terminated ->
    exists (frames : list Frame) (frame : Frame) (angle : float) (l : list command),
      got_frames (issued w (snd (the_loop inputs w))) = frames ++ [frame] /\
      steering_of shape run_yellow_segmentation_pipeline
                  run_lane_detection_pipeline steering_command frame = Return angle /\
      written (v (vesc (snd (the_loop inputs w)))) =
      l ++ [set_servo (angle * steering_scale (vesc w) + steering_offset (vesc w))%float;
            set_duty_cycle (THROTTLE * percent (vesc w))%float].
Proof.
  intros inputs w H.
  destruct (loop_quit inputs w H) as [t [frames [frame [angle [l [Hc [Hg [Hs Hw]]]]]]]].
  exists frames, frame, angle, l.
  rewrite (issued_of_calls _ _ _ Hc). repeat split; assumption.
Qed.

(** [cv2.destroyAllWindows()] is called exactly when the loop ends by [q],
    once and as the last call; it is not called when an exception ends the
    loop. *)
Theorem destroy_iff_terminated :
  forall (inputs : list (Frame * Z)) (w : World),
    let tr := issued w (snd (the_loop inputs w)) in
    filter is_destroy tr =
      match fst (the_loop inputs w) with
      | Terminated => [DestroyAllWindows]
      | _ => []
      end /\
    match fst (the_loop inputs w) with
    | Terminated => exists t0, tr = t0 ++ [DestroyAllWindows]
    | _ => True
    end.
Proof.
  intros inputs w tr. subst tr.
  destruct (loop_effect inputs w) as [t [Hc [_ [_ [_ Hst]]]]].
  rewrite (issued_of_calls _ _ _ Hc).
  destruct (fst (the_loop inputs w)).
  - destruct Hst as [A _]. split; [exact A | exact I].
  - destruct Hst as [A [B _]]. split; [exact A | exact B].
  - destruct Hst as [A _]. split; [exact A | exact I].
Qed.

(** While the calls into [toolbox] return and no key is [q], the loop goes
    on: every frame is got and gets its call of [run]. *)
Lemma loop_goes_on (pre : list (Frame * Z)) :
  forall w : World,
    Forall (fun i => goes_on i) pre ->
    fst (the_loop pre w) = Streaming /\
    (exists t : list Call,
       calls (snd (the_loop pre w)) = calls w ++ t /\
       got_frames t = map fst pre /\
       List.length (filter is_run t) = List.length pre) /\
    forall rest, the_loop (pre ++ rest) w = the_loop rest (snd (the_loop pre w)).
Proof.
  induction pre as [|[frame key] pre IH]; intros w Hok; simpl.
  - split; [reflexivity|]. split; [|reflexivity].
    exists []. rewrite app_nil_r. repeat split.
  - inversion Hok as [|i l [Hret Hkey] Hok']; subst. simpl in Hret, Hkey.
    destruct (cycle_frame shape run_yellow_segmentation_pipeline
                run_lane_detection_pipeline steering_command addWeighted resize
                frame key w) as [tc [Hc [Hg [Hr [_ Hres]]]]].
    destruct (the_cycle frame key w) as [[b|e] w1]; simpl in *.
    + destruct Hres as [Hb [angle [Hs Hv]]].
      assert (Hq : (key =? ord_q)%Z = false) by (apply Z.eqb_neq; exact Hkey).
      rewrite Hq in Hb. subst b.
      destruct (IH w1 Hok') as [Hst [[t [Hc2 [Hg2 Hr2]]] Hrest]].
      split; [exact Hst|]. split; [|exact Hrest].
      exists (tc ++ t).
      split; [rewrite Hc2, Hc, <- app_assoc; reflexivity|].
      split; [rewrite got_frames_app, Hg, Hg2; reflexivity|].
      rewrite filter_app, length_app, Hr, Hr2.
      unfold run_for. rewrite Hs. reflexivity.
    + destruct Hres as [Hs _]. unfold frame_returns in Hret.
      rewrite Hs in Hret. discriminate.
Qed.

(** When a call into [toolbox] raises on a frame, after frames on which they
    returned and keys other than [q], the loop ends with that exception: the
    frame has been got and gets no call of [run], the frames before it got
    one each, and what is delivered after it is not looked at. *)
Theorem toolbox_raise_ends_loop :
  forall (pre post : list (Frame * Z)) (frame : Frame) (key : Z) (w : World)
         (e : exn),
    Forall (fun i => goes_on i) pre ->
    steering_of shape run_yellow_segmentation_pipeline
                run_lane_detection_pipeline steering_command frame = Raise e ->
    let r := the_loop (pre ++ (frame, key) :: post) w in
    let tr := issued w (snd r) in
    fst r = Aborted e /\
    got_frames tr = map fst pre ++ [frame] /\
    List.length (filter is_run tr) = List.length pre.
Proof.
  intros pre post frame key w e Hok Hs r tr. subst tr r.
  destruct (loop_goes_on pre w Hok) as [_ [[t [Hc [Hg Hr]]] Hrest]].
  rewrite Hrest. simpl.
  destruct (cycle_frame shape run_yellow_segmentation_pipeline
              run_lane_detection_pipeline steering_command addWeighted resize
              frame key (snd (the_loop pre w))) as [tc [Hc2 [Hg2 [Hr2 [_ Hres]]]]].
  destruct (the_cycle frame key (snd (the_loop pre w))) as [[b|e'] w1]; simpl in *.
  - destruct Hres as [_ [angle [Hs' _]]]. rewrite Hs in Hs'. discriminate.
  - destruct Hres as [Hs' _]. rewrite Hs in Hs'. inversion Hs'; subst e'.
    assert (Hcalls : calls w1 = calls w ++ (t ++ tc))
      by (rewrite Hc2, Hc, <- app_assoc; reflexivity).
    rewrite (issued_of_calls _ _ _ Hcalls).
    split; [reflexivity|].
    split; [rewrite got_frames_app, Hg, Hg2; reflexivity|].
    rewrite filter_app, length_app, Hr, Hr2. unfold run_for. rewrite Hs.
    simpl. lia.
Qed.

(** While the calls into [toolbox] return and no key is [q], every frame
    delivered is got and gets its call of [run], and the loop goes on
    waiting for the next. *)
Theorem streaming_handles_every_frame :
  forall (inputs : list (Frame * Z)) (w : World),
    Forall (fun i =>
              frame_returns shape run_yellow_segmentation_pipeline
                            run_lane_detection_pipeline steering_command (fst i) = true /\
              snd i <> ord_q) inputs ->
    let tr := issued w (snd (the_loop inputs w)) in
    fst (the_loop inputs w) = Streaming /\
    got_frames tr = map fst inputs /\
    List.length (filter is_run tr) = List.length inputs.
Proof.
  intros inputs w Hok tr. subst tr.
  destruct (loop_goes_on inputs w Hok) as [Hst [[t [Hc [Hg Hr]]] _]].
  rewrite (issued_of_calls _ _ _ Hc). repeat split; assumption.
Qed.

(** The loop handles what it is delivered in order: running it on more input
    continues from where it was, and once it has ended, by [q] or by an
    exception, further frames and keys change nothing. *)
Theorem streaming_app :
  forall (pre post : list (Frame * Z)) (w : World),
    let loop := streaming shape run_yellow_segmentation_pipeline
                          run_lane_detection_pipeline steering_command
                          addWeighted resize in
    loop (pre ++ post) w =
    match fst (loop pre w) with
    | Streaming => loop post (snd (loop pre w))
    | _ => loop pre w
    end.
Proof.
  cbv zeta.
  induction pre as [|[frame key] pre IH]; intros post w; simpl; [reflexivity|].
  destruct (the_cycle frame key w) as [[[|]|e] w1]; simpl; try reflexivity.
  apply IH.
Qed.

(** What a cycle passes on: the angle given to [run] is what
    [toolbox.steering_command] returned for the steering line of the first
    pipeline, or of the second when the first found none (an absent line
    included), and the width of the frame; the throttle is [THROTTLE]; the
    debug view blends the frame with the overlay of the same pipeline.  When
    a pipeline or [steering_command] raises, nothing is sent and nothing is
    shown. *)
Theorem cycle_dataflow :
  forall (frame : Frame) (key : Z) (w : World),
    let r := the_cycle frame key w in
    let tr := issued w (snd r) in
    match estimate run_yellow_segmentation_pipeline run_lane_detection_pipeline frame with
    | Raise e =>
        fst r = Raise e /\ filter is_run tr = [] /\ filter is_display tr = [] /\
        vesc (snd r) = vesc w
    | Return (overlay, steering_line) =>
        match steering_command steering_line (snd (fst (shape frame))) with
        | Raise e =>
            fst r = Raise e /\ filter is_run tr = [] /\ filter is_display tr = [] /\
            vesc (snd r) = vesc w
        | Return steering_cmd =>
            let output := addWeighted frame 0.8%float overlay 1%float 1%float in
            fst r = Return (key =? ord_q)%Z /\
            filter is_run tr = [VescRun steering_cmd THROTTLE] /\
            filter is_display tr =
              [AddWeighted frame 0.8%float overlay 1%float 1%float;
               Resize output (480, 270)%Z;
               Imshow "frame" (resize output (480, 270)%Z)] /\
            vesc (snd r) = run (vesc w) steering_cmd THROTTLE
        end
    end.
Proof.
  intros frame key w r tr. subst tr r. unfold estimate.
  pose proof (cycle_cases shape run_yellow_segmentation_pipeline
                run_lane_detection_pipeline steering_command addWeighted resize
                frame key w) as HC.
  destruct (the_cycle frame key w) as [r w']; simpl in *.
  inversion HC as [e Hy | ov e Hy Hl | fb ov l e Hf Hs | fb ov l cmd Hf Hs];
    subst; rewrite issued_app.
  - rewrite Hy. repeat split.
  - rewrite Hy, Hl. repeat split.
  - destruct fb.
    + destruct Hf as [[o Hy] Hl]. rewrite Hy, Hl, Hs. repeat split.
    + destruct Hf as [Hy Hn]. rewrite Hy. destruct l as [l|]; [|congruence].
      rewrite Hs. repeat split.
  - destruct fb.
    + destruct Hf as [[o Hy] Hl]. rewrite Hy, Hl, Hs. repeat split.
    + destruct Hf as [Hy Hn]. rewrite Hy. destruct l as [l|]; [|congruence].
      rewrite Hs. repeat split.
Qed.

End LoopEffects.

Lemma quit_leaves_last_command_witness :
  exists (frames : list nat) (frame : nat) (angle : float) (l : list command),
    got_frames (issued demo_world (snd (demo_streaming demo_inputs demo_world))) =
    frames ++ [frame] /\
    steering_of demo_shape demo_yellow demo_lane demo_steering frame = Return angle /\
    written (v (vesc (snd (demo_streaming demo_inputs demo_world)))) =
    l ++ [set_servo (angle * steering_scale (vesc demo_world)
                     + steering_offset (vesc demo_world))%float;
          set_duty_cycle (THROTTLE * percent (vesc demo_world))%float].
Proof.
  exact (quit_leaves_last_command demo_shape demo_yellow demo_lane demo_steering
           demo_addWeighted demo_resize demo_inputs demo_world eq_refl).
Defined.

Lemma toolbox_raise_ends_loop_witness :
  let r := demo_streaming_blind
             ([(0%nat, (-1)%Z)] ++ (5%nat, (-1)%Z) :: [(2%nat, (-1)%Z)]) demo_world in
  let tr := issued demo_world (snd r) in
  fst r = Aborted (mkExn "TypeError" "'NoneType' object is not subscriptable") /\
  got_frames tr = map fst [(0%nat, (-1)%Z)] ++ [5%nat] /\
  List.length (filter is_run tr) = List.length [(0%nat, (-1)%Z)].
Proof.
  apply (toolbox_raise_ends_loop demo_shape demo_yellow demo_lane_blind
           demo_steering demo_addWeighted demo_resize
           [(0%nat, (-1)%Z)] [(2%nat, (-1)%Z)] 5%nat (-1)%Z demo_world
           (mkExn "TypeError" "'NoneType' object is not subscriptable")).
  - repeat constructor. simpl. discriminate.
  - reflexivity.
Defined.

Lemma streaming_handles_every_frame_witness :
  let inputs := [(0%nat, (-1)%Z); (1%nat, (-1)%Z)] in
  let tr := issued demo_world (snd (demo_streaming inputs demo_world)) in
  fst (demo_streaming inputs demo_world) = Streaming /\
  got_frames tr = map fst inputs /\
  List.length (filter is_run tr) = List.length inputs.
Proof.
  apply (streaming_handles_every_frame demo_shape demo_yellow demo_lane
           demo_steering demo_addWeighted demo_resize
           [(0%nat, (-1)%Z); (1%nat, (-1)%Z)] demo_world).
  repeat constructor; simpl; discriminate.
Defined.

(** * The script as a whole *)

Lemma main_vesc_result (E : env) :
  fst (main_vesc E []) =
  match import_pyvesc E with
  | Some e => Raise e
  | None =>
      match open_port E "/dev/ttyACM0" with
      | Some e => Raise e
      | None => Return vesc0
      end
  end.
Proof.
  unfold main_vesc. rewrite VESC_init_result.
  destruct (import_pyvesc E); reflexivity.
Qed.

Section ScriptProperties.

Context {Frame Overlay Line Image : Type}.
Variable shape : Frame -> Z * Z * Z.
Variable run_yellow_segmentation_pipeline : Frame -> result (Overlay * option Line).
Variable run_lane_detection_pipeline : Frame -> result (Overlay * option Line).
Variable steering_command : option Line -> Z -> result float.
Variable addWeighted : Frame -> float -> Overlay -> float -> float -> Image.
Variable resize : Image -> Z * Z -> Image.

Local Notation "'the_loop'" :=
  (streaming shape run_yellow_segmentation_pipeline run_lane_detection_pipeline
             steering_command addWeighted resize).
Local Notation "'the_main'" :=
  (main shape run_yellow_segmentation_pipeline run_lane_detection_pipeline
        steering_command addWeighted resize).

(** The construction of line 75 does not fail on the assertion: with its
    [percent] of 0.2 it raises what [import pyvesc] raised, else what opening
    [/dev/ttyACM0] raised, else it returns the controller with scale 1.0,
    offset 0.5 and [percent] 0.2; and the script ends with the exception of
    a failed construction. *)
Theorem main_controller_outcome :
  forall (E : env) (D : camera) (inputs : list (Frame * Z)),
    fst (main_vesc E []) =
      match import_pyvesc E with
      | Some e => Raise e
      | None =>
          match open_port E "/dev/ttyACM0" with
          | Some e => Raise e
          | None => Return vesc0
          end
      end /\
    match fst (main_vesc E []) with
    | Raise e => fst (fst (the_main E D inputs)) = Aborted e
    | Return _ => True
    end.
Proof.
  intros E D inputs. split; [apply main_vesc_result|].
  unfold main. destruct (main_vesc E []) as [[vesc1|e] t]; simpl; [exact I | reflexivity].
Qed.

(** Unless pyvesc imports, the serial port opens and the camera opens, the
    script ends with an exception before the loop: no frame is got, nothing
    is shown, and nothing is written to the transport. *)
Theorem main_fails_before_loop :
  forall (E : env) (D : camera) (inputs : list (Frame * Z)),
    import_pyvesc E <> None \/ open_port E "/dev/ttyACM0" <> None \/
    device_error D <> None ->
    let '(st, controller, trace) := the_main E D inputs in
    (exists e, st = Aborted e) /\
    existsb is_loop_step trace = false /\
    match controller with
    | Some self => written (v self) = []
    | None => existsb is_camera_step trace = false
    end.
Proof.
  intros E D inputs H. unfold main.
  pose proof (main_vesc_result E) as Hv.
  destruct (main_vesc E []) as [[vesc1|e1] t]; simpl in Hv.
  - destruct (import_pyvesc E) as [e3|]; [discriminate|].
    destruct (open_port E "/dev/ttyACM0") as [e4|]; [discriminate|].
    inversion Hv; subst vesc1.
    destruct (device_error D) as [e2|].
    + split; [exists e2; reflexivity|]. split; [|reflexivity].
      rewrite existsb_app. replace (existsb is_loop_step (map OfCamera camera_setup))
        with false by reflexivity.
      rewrite orb_false_r. clear. induction t as [|c t IH]; [reflexivity | exact IH].
    + exfalso. destruct H as [H | [H | H]]; apply H; reflexivity.
  - split; [exists e1; reflexivity|].
    split; clear; induction t as [|c t IH]; simpl; auto.
Qed.

(** Whenever the script has a controller, it is the one of line 75 (scale
    1.0, offset 0.5, [percent] 0.2 on [/dev/ttyACM0]), and every duty cycle
    its transport has received is [0.15 * 0.2], a positive power below 1:
    the script always drives forward and never sends zero. *)
Theorem main_power_commands :
  forall (E : env) (D : camera) (inputs : list (Frame * Z)),
    match snd (fst (the_main E D inputs)) with
    | None => True
    | Some self =>
        same_config vesc0 self /\
        Forall (fun power => power = (0.15 * 0.2)%float)
               (power_commands (written (v self)))
    end /\
    (0 <? 0.15 * 0.2)%float = true /\ (0.15 * 0.2 <? 1)%float = true.
Proof.
  intros E D inputs. split; [|split; reflexivity].
  unfold main.
  pose proof (main_vesc_result E) as Hv.
  destruct (main_vesc E []) as [[vesc1|e1] t]; simpl in Hv; [|exact I].
  destruct (import_pyvesc E) as [e3|]; [discriminate|].
  destruct (open_port E "/dev/ttyACM0") as [e4|]; [discriminate|].
  inversion Hv; subst vesc1.
  destruct (device_error D) as [e2|].
  - simpl. split; [apply same_config_refl | constructor].
  - destruct (loop_effect shape run_yellow_segmentation_pipeline
                run_lane_detection_pipeline steering_command addWeighted resize
                inputs (mkWorld vesc0 [])) as [tr [_ [Hw [Hs [Ht _]]]]].
    destruct (the_loop inputs (mkWorld vesc0 [])) as [st w]; simpl in *.
    split; [exact Hs|].
    rewrite Hw. apply (power_commands_fixed vesc0 tr Ht).
Qed.

End ScriptProperties.

Lemma main_fails_before_loop_witness :
  let '(st, controller, trace) := demo_main env_ok camera_missing demo_inputs in
  (exists e, st = Aborted e) /\
  existsb is_loop_step trace = false /\
  match controller with
  | Some self => written (v self) = []
  | None => existsb is_camera_step trace = false
  end.
Proof.
  apply (main_fails_before_loop demo_shape demo_yellow demo_lane demo_steering
           demo_addWeighted demo_resize env_ok camera_missing demo_inputs).
  right. right. discriminate.
Defined.

(** * More on the servo command *)

Section UnitScale.

Local Open Scope Z_scope.

(** The other half of what shifting keeps: the mantissa is the quotient. *)
Lemma shr_1_upper (M k : Z) (r : shr_record) :
  0 <= k -> 0 <= shr_m r ->
  M < (shr_m r + 1) * 2 ^ k ->
  M < (shr_m (shr_1 r) + 1) * 2 ^ (k + 1).
Proof.
  intros Hk H0 H1. destruct r as [m r s]; simpl in *.
  assert (P : 0 < 2 ^ k) by (apply Z.pow_pos_nonneg; lia).
  assert (Q : 2 ^ (k + 1) = 2 * 2 ^ k) by (rewrite Z.pow_add_r, Z.pow_1_r by lia; lia).
  destruct m as [|[p|p|]|p]; [| | | |exfalso; lia];
    cbn [shr_1 shr_m]; rewrite Q.
  - lia.
  - rewrite (Pos2Z.inj_xI p) in *. nia.
  - rewrite (Pos2Z.inj_xO p) in *. nia.
  - nia.
Qed.

Lemma shr_iter_upper (M : Z) (n : positive) :
  forall (k : Z) (r : shr_record),
    0 <= k -> shr_inv M k r ->
    M < (shr_m r + 1) * 2 ^ k ->
    M < (shr_m (iter_pos shr_1 n r) + 1) * 2 ^ (k + Zpos n).
Proof.
  induction n as [n IH | n IH |]; intros k r Hk I H; simpl.
  - replace (k + Zpos n~1) with ((k + 1 + Zpos n) + Zpos n) by lia.
    apply IH; [lia | |].
    + apply shr_inv_iter; [lia|]. apply shr_inv_1; assumption.
    + apply IH; [lia | apply shr_inv_1; assumption|].
      apply shr_1_upper; [lia | apply I | exact H].
  - replace (k + Zpos n~0) with ((k + Zpos n) + Zpos n) by lia.
    apply IH; [lia | apply shr_inv_iter; assumption|].
    apply IH; assumption.
  - apply shr_1_upper; [lia | apply I | exact H].
Qed.

(** Shifting [m * 2^n] right by [n] gives [m] back, exactly. *)
Lemma shr_exact (m n : positive) :
  iter_pos shr_1 n (Build_shr_record (Zpos m * 2 ^ Zpos n) false false) =
  Build_shr_record (Zpos m) false false.
Proof.
  set (M := Zpos m * 2 ^ Zpos n).
  assert (P : 0 < 2 ^ Zpos n) by (apply Z.pow_pos_nonneg; lia).
  assert (I0 : shr_inv M 0 (Build_shr_record M false false)).
  { unfold shr_inv; simpl. repeat split; lia. }
  assert (U0 : M < (shr_m (Build_shr_record M false false) + 1) * 2 ^ 0) by (simpl; lia).
  pose proof (shr_inv_iter M n 0 _ (Z.le_refl 0) I0) as I.
  pose proof (shr_iter_upper M n 0 _ (Z.le_refl 0) I0 U0) as U.
  destruct (iter_pos shr_1 n (Build_shr_record M false false)) as [m' r s].
  destruct I as [I1 [I2 I3]]. cbn [shr_m shr_r shr_s] in *.
  rewrite Z.add_0_l in *. unfold M in *.
  apply Z.mul_le_mono_pos_r in I2; [|exact P].
  apply Z.mul_lt_mono_pos_r in U; [|exact P].
  assert (E : m' = Zpos m) by lia.
  subst m'. destruct (I3 eq_refl) as [-> ->]. reflexivity.
Qed.

Lemma digits2_pos_unique (p : positive) (d : Z) :
  2 ^ (d - 1) <= Zpos p < 2 ^ d -> Zpos (digits2_pos p) = d.
Proof.
  intros [L U]. destruct (digits2_pos_bounds p) as [L' U'].
  assert (Hd : 0 < d).
  { destruct (Z.lt_ge_cases 0 d) as [|G]; [assumption|]. exfalso.
    destruct (Z.eq_dec d 0) as [->|N]; [simpl in U; lia|].
    rewrite Z.pow_neg_r in U by lia. lia. }
  assert (A : 2 ^ (d - 1) < 2 ^ Zpos (digits2_pos p)) by lia.
  assert (B : 2 ^ (Zpos (digits2_pos p) - 1) < 2 ^ d) by lia.
  apply Z.pow_lt_mono_r_iff in A; [|lia|lia].
  apply Z.pow_lt_mono_r_iff in B; [|lia|lia].
  lia.
Qed.

Lemma digits2_pos_shift (m : positive) :
  Zpos (digits2_pos (m * 4503599627370496)) = Zpos (digits2_pos m) + 52.
Proof.
  apply digits2_pos_unique.
  destruct (digits2_pos_bounds m) as [L U].
  rewrite Pos2Z.inj_mul. change (Zpos 4503599627370496) with (2 ^ 52).
  replace (Zpos (digits2_pos m) + 52 - 1) with (Zpos (digits2_pos m) - 1 + 52) by lia.
  rewrite !Z.pow_add_r by lia.
  assert (P : 0 < 2 ^ 52) by (apply Z.pow_pos_nonneg; lia).
  split; [apply Z.mul_le_mono_pos_r | apply Z.mul_lt_mono_pos_r]; assumption.
Qed.

(** Multiplying by 1 is exact. *)
Lemma SFmul_one_r (x : spec_float) :
  valid_binary x = true -> SFmul prec emax x SF_one = x.
Proof.
  intros V. destruct x as [s|s| |s m e]; try (destruct s; reflexivity); [reflexivity|].
  destruct (valid_finite s m e V) as [Hcan [Hb _]].
  apply Z.eqb_eq in Hcan. apply Z.leb_le in Hb.
  unfold SF_one, SFmul.
  assert (H1 : shr_fexp prec emax (Zpos (m * 4503599627370496)) (e + -52) loc_Exact =
               (Build_shr_record (Zpos m) false false, e)).
  { unfold shr_fexp. cbn [Zdigits2 shr_record_of_loc].
    rewrite digits2_pos_shift.
    replace (Zpos (digits2_pos m) + 52 + (e + -52)) with (Zpos (digits2_pos m) + e) by lia.
    rewrite Hcan.
    replace (e - (e + -52)) with (Zpos 52) by lia.
    unfold shr. rewrite Pos2Z.inj_mul.
    change (Zpos 4503599627370496) with (2 ^ Zpos 52).
    rewrite shr_exact. f_equal. lia. }
  assert (H2 : shr_fexp prec emax (Zpos m) e loc_Exact =
               (Build_shr_record (Zpos m) false false, e)).
  { unfold shr_fexp. cbn [Zdigits2 shr_record_of_loc].
    rewrite Hcan, Z.sub_diag. reflexivity. }
  unfold binary_round_aux. rewrite H1.
  cbn [shr_m loc_of_shr_record round_nearest_even]. rewrite H2.
  cbn [shr_m]. rewrite Hb. destruct s; reflexivity.
Qed.

Lemma mul_one_r (x : float) : (x * 1 = x)%float.
Proof.
  apply Prim2SF_inj. rewrite mul_spec.
  change (Prim2SF 1) with SF_one.
  apply SFmul_one_r, Prim2SF_valid.
Qed.

End UnitScale.

(** With the default [steering_scale] of 1.0, the scale the script uses, the
    servo position sent is [angle + steering_offset]: multiplying by 1.0
    changes no angle, not even in its last bit. *)
Theorem unit_scale_servo :
  forall (offset pct : float) (t : pyvesc_VESC) (angle throttle : float),
    let self := mkVESC 1.0%float offset pct t in
    servo_commands (sent self (run self angle throttle)) = [(angle + offset)%float].
Proof.
  intros offset pct t angle throttle self. subst self.
  rewrite sent_run. simpl. rewrite mul_one_r. reflexivity.
Qed.

